(** * check-removed-services: a shallow embedding and its properties

    The script [scripts/services/check-removed-services.js] compares the
    ids of the records of a legacy JSON document with the names of the
    YAML files of a directory and writes one YAML file per legacy id that
    has no file.  This development embeds the script function by function
    and proves the properties stated about it.

    Conventions of the embedding.
    - A JavaScript string is the sequence of its code units; the model
      covers the code units below 256, one [ascii] each.
    - A JavaScript value coming out of [JSON.parse] is a [value].
    - An [async] function is a computation in the monad [io]: it reads
      and changes a [world] and either returns or throws ([outcome]); a
      rejected promise that is awaited is a [Throw].
    - What Node and js-yaml provide ([JSON.parse], [yaml.dump],
      [path.join], [path.parse]) is a parameter of the development, the
      class [Node]; [Posix] gives one instance to run the script on
      concrete inputs. *)

From Stdlib Require Import Ascii NArith ZArith.
From stdpp Require Import gmap strings list sorting pretty.

(** * Strings *)

Module Str.

Definition code (c : ascii) : N := N_of_ascii c.

Definition between (lo hi : N) (c : ascii) : bool :=
  ((lo <=? code c) && (code c <=? hi))%N.

(** [String.prototype.toLowerCase] on one code unit below 256: the
    letters A-Z and the Latin-1 capitals U+00C0-U+00DE (U+00D7, the
    multiplication sign, apart) move up by 32. *)
Definition lowerCaseUnit (c : ascii) : ascii :=
  if between 65 90 c || (between 192 222 c && negb (code c =? 215)%N)
  then ascii_of_N (code c + 32)
  else c.

Fixpoint toLowerCase (s : string) : string :=
  match s with
  | EmptyString => EmptyString
  | String c t => String (lowerCaseUnit c) (toLowerCase t)
  end.

(** [s.replace(re, '')] for a global regular expression [re] that
    matches single code units: every matching unit is dropped. *)
Fixpoint replace_all (re : ascii -> bool) (s : string) : string :=
  match s with
  | EmptyString => EmptyString
  | String c t =>
      if re c then replace_all re t else String c (replace_all re t)
  end.

(** The code units of a string. *)
Fixpoint units (s : string) : list ascii :=
  match s with
  | EmptyString => []
  | String c t => c :: units t
  end.

(** [l.join(sep)] on an array of strings. *)
Fixpoint join (sep : string) (l : list string) : string :=
  match l with
  | [] => ""
  | [x] => x
  | x :: rest => x +:+ sep +:+ join sep rest
  end.

End Str.

(** * The normalizer (lines 15-20) *)

(** The class [[^a-z0-9.]]. *)
Definition specificCharacters (c : ascii) : bool :=
  negb (Str.between 97 122 c || Str.between 48 57 c || (Str.code c =? 46)%N).

Definition normalizeFileName (serviceName : string) : string :=
  let lowerCased := Str.toLowerCase serviceName in
  let normalized := Str.replace_all specificCharacters lowerCased in
  normalized.

(** * Values, errors and outcomes *)

#[local] Set Warnings "-register-all".

(** What [JSON.parse] returns, and [undefined] for an absent property.
    An object keeps its fields in insertion order, one entry per key. *)
Inductive value : Type :=
  | VUndefined
  | VNull
  | VBool (b : bool)
  | VNum (n : Z)
  | VStr (s : string)
  | VArr (elements : list value)
  | VObj (fields : list (string * value)).

(** The exceptions a run can meet: the engine's [TypeError], the
    [SyntaxError] of [JSON.parse], a system error of [fs] with its code
    and the [YAMLException] of js-yaml. *)
Inductive exn : Type :=
  | TypeError
  | SyntaxError
  | SystemError (code : string)
  | YAMLException.

Inductive outcome (A : Type) : Type :=
  | Return (a : A)
  | Throw (e : exn).
Arguments Return {A} a.
Arguments Throw {A} e.

Global Instance outcome_ret : MRet outcome := λ A a, Return a.
Global Instance outcome_bind : MBind outcome := λ A B f m,
  match m with
  | Return a => f a
  | Throw e => Throw e
  end.

(** ** Property access and method calls on a [value] *)

Fixpoint lookup_field (key : string) (fields : list (string * value)) : value :=
  match fields with
  | [] => VUndefined
  | (k, v) :: rest => if String.eqb key k then v else lookup_field key rest
  end.

(** [v.key] for a key that no prototype defines ([id],
    [blocked_services]): a [TypeError] on [null] and [undefined], the own
    property of an object, [undefined] on everything else. *)
Definition get (v : value) (key : string) : outcome value :=
  match v with
  | VUndefined | VNull => Throw TypeError
  | VObj fields => Return (lookup_field key fields)
  | _ => Return VUndefined
  end.

Definition isArray (v : value) : bool :=
  match v with
  | VArr _ => true
  | _ => false
  end.

(** [normalizeFileName(v)] on any value: [v.toLowerCase()] is a
    [TypeError] unless [v] is a string (no value of a JSON document has a
    callable [toLowerCase]). *)
Definition call_normalizeFileName (v : value) : outcome string :=
  match v with
  | VStr s => Return (normalizeFileName s)
  | _ => Throw TypeError
  end.

(** [Array.prototype.find]: the first element the callback accepts,
    [undefined] when there is none; a throwing callback ends the search. *)
Fixpoint find (callback : value → outcome bool) (l : list value) : outcome value :=
  match l with
  | [] => Return VUndefined
  | x :: rest =>
      match callback x with
      | Throw e => Throw e
      | Return true => Return x
      | Return false => find callback rest
      end
  end.

(** [Array.prototype.includes] on strings. *)
Definition includes (l : list string) (x : string) : bool :=
  existsb (String.eqb x) l.

(** [Array.prototype.sort] without a comparator on an array of strings:
    ascending in the order of the code units. *)
Definition sort (l : list string) : list string := merge_sort String.le l.

(** * The world of a run *)

Inductive line : Type :=
  | ErrorLine (msg : string) (e : exn)   (* console.error(msg, e) *)
  | LogLine (msg : string).              (* console.log(msg) *)

(** [files]: the regular files, by path.  [dirs]: what [readdir] reports
    for a directory when the run starts; the script lists once, before
    it writes, and the model does not add the written files to it.
    [faults]: the paths on which [writeFile] is rejected, with the
    error.  [output]: the console, oldest line first.  [written]: the
    calls of [writeFile] that succeeded, oldest first. *)
Record world : Type := World {
  files : gmap string string;
  dirs : gmap string (list string);
  faults : gmap string exn;
  output : list line;
  written : list (string * string)
}.

Definition io (A : Type) : Type := world → outcome A * world.

Global Instance io_ret : MRet io := λ A a w, (Return a, w).
Global Instance io_bind : MBind io := λ A B f m w,
  match m w with
  | (Return a, w') => f a w'
  | (Throw e, w') => (Throw e, w')
  end.

Definition lift {A} (o : outcome A) : io A := λ w, (o, w).

(** [try { body } catch (error) { handler }] *)
Definition try_catch {A} (body : io A) (handler : exn → io A) : io A := λ w,
  match body w with
  | (Throw e, w') => handler e w'
  | r => r
  end.

(** Reading and listing know one failure, the path that does not
    exist ([ENOENT]). *)
Module fs.

Definition readFile (path : string) : io string := λ w,
  match files w !! path with
  | Some content => (Return content, w)
  | None => (Throw (SystemError "ENOENT"), w)
  end.

Definition readdir (path : string) : io (list string) := λ w,
  match dirs w !! path with
  | Some entries => (Return entries, w)
  | None => (Throw (SystemError "ENOENT"), w)
  end.

Definition writeFile (path data : string) : io unit := λ w,
  match faults w !! path with
  | Some e => (Throw e, w)
  | None =>
      (Return (),
       World (<[path := data]> (files w)) (dirs w) (faults w) (output w)
             (written w ++ [(path, data)]))
  end.

End fs.

Module console.

Definition emit (l : line) : io unit := λ w,
  (Return (),
   World (files w) (dirs w) (faults w) (output w ++ [l]) (written w)).

Definition error (msg : string) (e : exn) : io unit := emit (ErrorLine msg e).

Definition log (msg : string) : io unit := emit (LogLine msg).

End console.

(** * What Node and js-yaml provide *)

Class Node : Type := {
  (** [path.resolve(__dirname, '../../services/')], fixed when the
      module is loaded *)
  servicesDir : string;
  (** [JSON.parse(text)] *)
  JSON_parse : string → outcome value;
  (** [yaml.dump(object, { lineWidth })] *)
  yaml_dump : value → Z → outcome string;
  (** [path.join(p)] with its one argument *)
  path_join : string → string;
  (** [path.parse(p).name] *)
  path_parse_name : string → string;
  (** the string a template literal makes of a value that is no string *)
  ToString : value → string
}.

Definition YML_FILE_EXTENSION : string := ".yml".

(** [`${v}`] *)
Definition template `{Node} (v : value) : string :=
  match v with
  | VStr s => s
  | _ => ToString v
  end.

(** * The script *)

Section Script.

Context `{Node}.

(** Lines 29-38. *)
Definition getJsonObjects (jsonFilePath : string) : io value :=
  try_catch
    (jsonFileContent ← fs.readFile jsonFilePath;
     jsonObjects ← lift (JSON_parse jsonFileContent);
     lift (get jsonObjects "blocked_services"))
    (λ error,
       console.error "Error while reading JSON file:" error;;
       mret VNull).

(** Lines 46-54.  The function touches nothing outside its argument:
    its result is an [outcome]. *)
Definition getJsonObjectNames (jsonData : list value) : outcome (list string) :=
  jsonServicesId ← mapM (λ service, get service "id") jsonData;
  formattedServicesId ← mapM call_normalizeFileName jsonServicesId;
  mret (sort formattedServicesId).

(** Lines 62-75.  [readdir] yields strings, on which the normalizer
    never throws. *)
Definition getYmlFileNames (servicesFolderPath : string) : io (list string) :=
  ymlFiles ← fs.readdir servicesFolderPath;
  let ymlFileNames := map (λ ymlFile, path_parse_name ymlFile) ymlFiles in
  let formattedServiceNames := map normalizeFileName ymlFileNames in
  mret (sort formattedServiceNames).

(** Lines 81-93.  The arguments of [fs.writeFile] are evaluated from
    left to right: the path (with [removedObject.id]) before the
    dump. *)
Fixpoint writeRemovedServices (removedObjects : list value) : io unit :=
  match removedObjects with
  | [] => mret ()
  | removedObject :: restObjects =>
      id ← lift (get removedObject "id");
      let file :=
        path_join (servicesDir +:+ "/" +:+ template id +:+ YML_FILE_EXTENSION) in
      data ← lift (yaml_dump removedObject (-1));
      fs.writeFile file data;;
      if (1 <? length removedObjects)%nat
      then writeRemovedServices restObjects
      else mret ()
  end.

(** The callback of [find] at lines 107-108: [({ id }) =>
    normalizeFileName(id) === removedServiceName]. *)
Definition matches (removedServiceName : string) (service : value) : outcome bool :=
  id ← get service "id";
  name ← call_normalizeFileName id;
  mret (String.eqb name removedServiceName).

(** Lines 105-110. *)
Definition removedServicesObjects
    (removedServicesNames : list string) (jsonServicesData : list value)
    : outcome (list value) :=
  mapM (λ removedServiceName,
          find (matches removedServiceName) jsonServicesData)
       removedServicesNames.

(** Lines 102-115. *)
Definition rewriteYMLFile
    (removedServicesNames : list string) (jsonServicesData : list value)
    : io unit :=
  try_catch
    (objects ← lift (removedServicesObjects removedServicesNames jsonServicesData);
     writeRemovedServices objects)
    (λ error, console.error "Error while rewriting file:" error).

(** Line 136. *)
Definition differences (jsonObjectNames ymlFileNames : list string) : list string :=
  List.filter (λ name, negb (includes ymlFileNames name)) jsonObjectNames.

(** Line 141. *)
Definition summary (differences : list string) : string :=
  "These services have been removed: " +:+ Str.join ", " differences
    +:+ ", and were rewritten".

(** Lines 123-143. *)
Definition checkRemovedServices (servicesFolderPath jsonFilePath : string) : io unit :=
  jsonDataObjects ← getJsonObjects jsonFilePath;
  match jsonDataObjects with
  | VArr jsonData =>
      ymlFileNames ← getYmlFileNames servicesFolderPath;
      jsonObjectNames ← lift (getJsonObjectNames jsonData);
      let differences := differences jsonObjectNames ymlFileNames in
      if (0 <? length differences)%nat
      then
        rewriteYMLFile differences jsonData;;
        console.log (summary differences)
      else mret ()
  | _ => mret ()
  end.

End Script.

(** * An instance of [Node]

    A model of the library functions on a POSIX system, after Node's
    [lib/path.js], to run the script on concrete inputs.  The theorems
    below hold for every instance; this one serves the examples. *)

Module Posix.

Definition is_slash (c : ascii) : bool := (Str.code c =? 47)%N.
Definition is_dot (c : ascii) : bool := (Str.code c =? 46)%N.

(** The segments of a path between its separators. *)
Fixpoint split (path : string) : list string :=
  match path with
  | EmptyString => [""]
  | String c t =>
      if is_slash c then "" :: split t
      else match split t with
           | seg :: segs => String c seg :: segs
           | [] => [String c ""]
           end
  end.

(** [normalizeString]: [.] and empty segments vanish, [..] removes
    the segment before it; above the start of a relative path [..]
    stays, above the root it vanishes.  [kept] is in reverse. *)
Fixpoint resolve (isAbsolute : bool) (kept : list string) (segs : list string)
    : list string :=
  match segs with
  | [] => rev kept
  | seg :: rest =>
      if String.eqb seg "" || String.eqb seg "." then resolve isAbsolute kept rest
      else if String.eqb seg ".." then
        match kept with
        | top :: below =>
            if String.eqb top ".."
            then resolve isAbsolute (".." :: kept) rest
            else resolve isAbsolute below rest
        | [] =>
            if isAbsolute
            then resolve isAbsolute [] rest
            else resolve isAbsolute [".."] rest
        end
      else resolve isAbsolute (seg :: kept) rest
  end.

Definition first_is_slash (path : string) : bool :=
  match path with
  | String c _ => is_slash c
  | EmptyString => false
  end.

Fixpoint last_is_slash (path : string) : bool :=
  match path with
  | EmptyString => false
  | String c EmptyString => is_slash c
  | String _ t => last_is_slash t
  end.

(** [path.normalize] *)
Definition normalize (path : string) : string :=
  if String.eqb path "" then "."
  else
    let isAbsolute := first_is_slash path in
    let trailingSeparator := last_is_slash path in
    let body := Str.join "/" (resolve isAbsolute [] (split path)) in
    if String.eqb body "" then
      if isAbsolute then "/" else if trailingSeparator then "./" else "."
    else
      (if isAbsolute then "/" else "") +:+ body
        +:+ (if trailingSeparator then "/" else "").

(** [path.join(p)]: the one argument, normalized. *)
Definition join (path : string) : string := normalize path.

(** The state of the loop of [path.parse], which scans the path from
    its end. *)
Record scan : Type := Scan {
  startDot : Z;
  startPart : Z;
  end_ : Z;
  matchedSlash : bool;
  preDotState : Z
}.

Definition charAt (path : string) (i : Z) : ascii :=
  match String.get (Z.to_nat i) path with
  | Some c => c
  | None => "000"%char
  end.

(** [for (i = path.length - 1; i >= start; --i)], with [n] rounds to
    go: [i = start + n - 1]. *)
Fixpoint loop (path : string) (start : Z) (n : nat) (st : scan) : scan :=
  match n with
  | O => st
  | S n' =>
      let i := (start + Z.of_nat n')%Z in
      let code := charAt path i in
      if is_slash code then
        if negb (matchedSlash st)
        then Scan (startDot st) (i + 1) (end_ st) (matchedSlash st) (preDotState st)
        else loop path start n' st
      else
        let st1 :=
          if (end_ st =? -1)%Z
          then Scan (startDot st) (startPart st) (i + 1) false (preDotState st)
          else st in
        let st2 :=
          if is_dot code then
            if (startDot st1 =? -1)%Z
            then Scan i (startPart st1) (end_ st1) (matchedSlash st1) (preDotState st1)
            else if negb (preDotState st1 =? 1)%Z
            then Scan (startDot st1) (startPart st1) (end_ st1) (matchedSlash st1) 1
            else st1
          else if negb (startDot st1 =? -1)%Z
          then Scan (startDot st1) (startPart st1) (end_ st1) (matchedSlash st1) (-1)
          else st1 in
        loop path start n' st2
  end.

Definition slice (path : string) (from to : Z) : string :=
  String.substring (Z.to_nat from) (Z.to_nat (to - from)) path.

(** [path.parse(path).name] *)
Definition parse_name (path : string) : string :=
  let isAbsolute := first_is_slash path in
  let start := if isAbsolute then 1%Z else 0%Z in
  let len := Z.of_nat (String.length path) in
  let st := loop path start (Z.to_nat (len - start)) (Scan (-1) 0 (-1) true 0) in
  if (end_ st =? -1)%Z then ""
  else
    let from := if (startPart st =? 0)%Z && isAbsolute then 1%Z else startPart st in
    if (startDot st =? -1)%Z
       || (preDotState st =? 0)%Z
       || ((preDotState st =? 1)%Z
           && (startDot st =? end_ st - 1)%Z
           && (startDot st =? startPart st + 1)%Z)
    then slice path from (end_ st)
    else slice path from (startDot st).

(** The engine's [ToString] on the values of a JSON document whose
    numbers are integers of ordinary size. *)
Fixpoint to_string (v : value) : string :=
  match v with
  | VUndefined => "undefined"
  | VNull => "null"
  | VBool true => "true"
  | VBool false => "false"
  | VNum n => pretty n
  | VStr s => s
  | VArr elements =>
      Str.join ","
        (map (λ x, match x with
                   | VUndefined | VNull => ""
                   | _ => to_string x
                   end) elements)
  | VObj _ => "[object Object]"
  end.

(** [yaml.dump] on a record whose fields are plain scalars that need
    no quoting, or empty strings: one line [key: value] per field,
    whatever the line width.  Values that are no objects of strings
    are outside this instance, which reports them as a
    [YAMLException]. *)
Fixpoint dump_fields (fields : list (string * value)) : outcome string :=
  match fields with
  | [] => Return ""
  | (k, VStr s) :: rest =>
      match dump_fields rest with
      | Return text =>
          Return (k +:+ ": " +:+ (if String.eqb s "" then "''" else s)
                    +:+ String "010"%char "" +:+ text)
      | Throw e => Throw e
      end
  | _ => Throw YAMLException
  end.

Definition dump (v : value) (lineWidth : Z) : outcome string :=
  match v with
  | VObj fields => dump_fields fields
  | _ => Throw YAMLException
  end.

(** A [JSON.parse] that reads the text [text] as the document [doc]
    and rejects every other text. *)
Definition reads (text : string) (doc : value) : string → outcome value :=
  λ t, if String.eqb t text then Return doc else Throw SyntaxError.

(** The script installed under [/repo/scripts/services]. *)
Definition node (parse : string → outcome value) : Node := {|
  servicesDir := "/repo/services";
  JSON_parse := parse;
  yaml_dump := dump;
  path_join := join;
  path_parse_name := parse_name;
  ToString := to_string
|}.

End Posix.

(** * Sample inputs *)

Module Sample.

Definition record (id : string) : value := VObj [("id", VStr id)].

Definition legacy (records : list value) : value :=
  VObj [("blocked_services", VArr records)].

(** The text of the legacy file stands for the document that
    [JSON.parse] reads from it. *)
Definition text : string := "<services.json>".

Definition node (doc : value) : Node := Posix.node (Posix.reads text doc).

(** A world with the legacy file at [/repo/services.json], the
    directory [dir] holding the files [listing] with the content
    [old], and the write faults [faults]. *)
Definition start (dir : string) (listing : list string) (faults : gmap string exn)
    : world :=
  World (<["/repo/services.json" := text]>
           (list_to_map (map (λ f, (dir +:+ "/" +:+ f, "old")) listing)))
        {[ dir := listing ]} faults [] [].

End Sample.

(** * Notions used in the statements *)

(** The record [service] has the string [id] as its id. *)
Definition has_id (service : value) (id : string) : Prop :=
  get service "id" = Return (VStr id).

(** The record [service] lacks an id field or has an id that is no
    string. *)
Definition ill_formed (service : value) : Prop :=
  ∀ id, get service "id" ≠ Return (VStr id).

(** [r] is the first element of [L] whose normalized id is [key]. *)
Definition first_match (L : list value) (key : string) (r : value) : Prop :=
  ∃ before after id,
    L = before ++ r :: after
    ∧ has_id r id
    ∧ normalizeFileName id = key
    ∧ ∀ x j, x ∈ before → has_id x j → normalizeFileName j ≠ key.

(** The world after the writes [entries], in this order. *)
Definition put (entries : list (string * string)) (w : world) : world :=
  World (foldl (λ m e, <[e.1 := e.2]> m) (files w) entries)
        (dirs w) (faults w) (output w) (written w ++ entries).

(** The world after the lines [lines] went to the console. *)
Definition print (lines : list line) (w : world) : world :=
  World (files w) (dirs w) (faults w) (output w ++ lines) (written w).

Section Notions.

Context `{Node}.

(** The outcome of lines 31-33, the body of the [try] of
    [getJsonObjects]. *)
Definition loaded (w : world) (jsonFilePath : string) : outcome value :=
  match files w !! jsonFilePath with
  | None => Throw (SystemError "ENOENT")
  | Some jsonFileContent =>
      jsonObjects ← JSON_parse jsonFileContent;
      get jsonObjects "blocked_services"
  end.

(** The normalized, extension-stripped names of a listing, before
    they are sorted. *)
Definition file_keys (listing : list string) : list string :=
  map (λ ymlFile, normalizeFileName (path_parse_name ymlFile)) listing.

(** The path at which the record with the id [id] is written. *)
Definition file_of_id (id : string) : string :=
  path_join (servicesDir +:+ "/" +:+ id +:+ YML_FILE_EXTENSION).

(** What one round of [writeRemovedServices] does with a record: the
    path and the text it writes, or the exception of the round. *)
Definition attempt (w : world) (removedObject : value) : outcome (string * string) :=
  id ← get removedObject "id";
  let file :=
    path_join (servicesDir +:+ "/" +:+ template id +:+ YML_FILE_EXTENSION) in
  data ← yaml_dump removedObject (-1);
  match faults w !! file with
  | Some e => Throw e
  | None => Return (file, data)
  end.

(** The write [entry] is the file of the record to which the key
    [key] is resolved: its path is made of [servicesDir], the id of
    the record as it is, and the extension; its text is the dump of
    the record with the line width -1. *)
Definition file_for (L : list value) (key : string) (entry : string * string)
    : Prop :=
  ∃ r id data,
    first_match L key r
    ∧ has_id r id
    ∧ yaml_dump r (-1) = Return data
    ∧ entry = (file_of_id id, data).

(** The write [entry] is the file of a legacy record whose
    normalized id is not among the keys of the listing. *)
Definition restores (L : list value) (listing : list string)
    (entry : string * string) : Prop :=
  ∃ r id data,
    r ∈ L
    ∧ has_id r id
    ∧ (normalizeFileName id ∉ file_keys listing)
    ∧ yaml_dump r (-1) = Return data
    ∧ entry = (file_of_id id, data).

(** The legacy file gives no array, and the lines this costs: the
    file cannot be read, its text cannot be parsed, or the value
    under [blocked_services] is no array. *)
Inductive legacy_failure (w : world) (jsonFilePath : string) : list line → Prop :=
  | unreadable :
      files w !! jsonFilePath = None →
      legacy_failure w jsonFilePath
        [ErrorLine "Error while reading JSON file:" (SystemError "ENOENT")]
  | unparsable (text : string) (e : exn) :
      files w !! jsonFilePath = Some text →
      JSON_parse text = Throw e →
      legacy_failure w jsonFilePath
        [ErrorLine "Error while reading JSON file:" e]
  | not_an_array (text : string) (doc v : value) :
      files w !! jsonFilePath = Some text →
      JSON_parse text = Return doc →
      get doc "blocked_services" = Return v →
      isArray v = false →
      legacy_failure w jsonFilePath [].

End Notions.

(** * The library instance on sample paths *)

Example parse_name_yml : Posix.parse_name "other.yml" = "other".
Proof. reflexivity. Qed.
Example parse_name_dots : Posix.parse_name "Example.com.yml" = "Example.com".
Proof. reflexivity. Qed.
Example parse_name_dotfile : Posix.parse_name ".yml" = ".yml".
Proof. reflexivity. Qed.
Example parse_name_path : Posix.parse_name "/repo/services/a-b.yml" = "a-b".
Proof. reflexivity. Qed.
Example parse_name_dotdot : Posix.parse_name ".." = "..".
Proof. reflexivity. Qed.
Example parse_name_trailing : Posix.parse_name "/a/b.c/" = "b".
Proof. reflexivity. Qed.
Example join_plain : Posix.join "/repo/services/Example.com.yml" = "/repo/services/Example.com.yml".
Proof. reflexivity. Qed.
Example join_dot : Posix.join "/repo/services/./foo.yml" = "/repo/services/foo.yml".
Proof. reflexivity. Qed.
Example join_up : Posix.join "/repo/services/../x/../../foo.yml" = "/foo.yml".
Proof. reflexivity. Qed.
Example join_rel : Posix.join "a/../../b//c/" = "../b/c/".
Proof. reflexivity. Qed.

(** * Properties of the normalizer *)

Section Normalizer.

Lemma kept_unit_is_lower (c : ascii) :
  specificCharacters c = false → Str.lowerCaseUnit c = c.
Proof.
  destruct c as [[] [] [] [] [] [] [] []]; vm_compute; congruence.
Qed.

Lemma replace_all_units (re : ascii → bool) (s : string) (c : ascii) :
  c ∈ Str.units (Str.replace_all re s) ↔ c ∈ Str.units s ∧ re c = false.
Proof.
  induction s as [|d t IH]; simpl.
  - rewrite elem_of_nil. tauto.
  - destruct (re d) eqn:Hd; simpl.
    + rewrite IH, elem_of_cons. split.
      * intros [? ?]. auto.
      * intros [[-> | ?] ?]; [congruence | auto].
    + rewrite !elem_of_cons, IH. split.
      * intros [-> | [? ?]]; auto.
      * intros [[-> | ?] ?]; auto.
Qed.

Lemma normalizeFileName_units (x : string) (c : ascii) :
  c ∈ Str.units (normalizeFileName x) → specificCharacters c = false.
Proof.
  unfold normalizeFileName. rewrite replace_all_units. tauto.
Qed.

Lemma toLowerCase_fixed (s : string) :
  (∀ c, c ∈ Str.units s → specificCharacters c = false) →
  Str.toLowerCase s = s.
Proof.
  induction s as [|d t IH]; simpl; intros Hs; [done |].
  rewrite kept_unit_is_lower by (apply Hs; left).
  rewrite IH; [done |]. intros c Hc. apply Hs. by right.
Qed.

Lemma replace_all_fixed (re : ascii → bool) (s : string) :
  (∀ c, c ∈ Str.units s → re c = false) →
  Str.replace_all re s = s.
Proof.
  induction s as [|d t IH]; simpl; intros Hs; [done |].
  rewrite (Hs d) by left.
  rewrite IH; [done |]. intros c Hc. apply Hs. by right.
Qed.

Lemma normalizeFileName_fixed (s : string) :
  (∀ c, c ∈ Str.units s → specificCharacters c = false) →
  normalizeFileName s = s.
Proof.
  intros Hs. unfold normalizeFileName.
  rewrite toLowerCase_fixed by done. by apply replace_all_fixed.
Qed.

(** C9.  The normalizer is idempotent: normalizing a normalized
    string changes nothing.  The normalizer is [normalizeFileName],
    which lowercases its argument and then drops every code unit
    outside [a-z0-9.]. *)
Theorem normalizeFileName_idempotent (x : string) :
  normalizeFileName (normalizeFileName x) = normalizeFileName x.
Proof.
  apply normalizeFileName_fixed. intros c. apply normalizeFileName_units.
Qed.

(** The result holds code units of [a-z0-9.] only, and a string of
    such code units is its own normal form. *)
Lemma normalizeFileName_range (x : string) (c : ascii) :
  c ∈ Str.units (normalizeFileName x) →
  Str.between 97 122 c || Str.between 48 57 c || (Str.code c =? 46)%N = true.
Proof.
  intros Hc%normalizeFileName_units. unfold specificCharacters in Hc.
  by apply negb_false_iff in Hc.
Qed.

End Normalizer.

Example normalize_example : normalizeFileName "Example.com" = "example.com".
Proof. reflexivity. Qed.
Example normalize_collision : normalizeFileName "A-B" = normalizeFileName "ab".
Proof. reflexivity. Qed.

(** * Arrays of strings: sorting, membership, difference *)

Section Arrays.

Lemma elem_of_map {A B} (f : A → B) (l : list A) (y : B) :
  y ∈ map f l ↔ ∃ x, y = f x ∧ x ∈ l.
Proof.
  rewrite list_elem_of_In, in_map_iff. split.
  - intros (x & <- & Hx). exists x. by rewrite list_elem_of_In.
  - intros (x & -> & Hx). exists x. by rewrite <- list_elem_of_In.
Qed.

Lemma sort_sorted (l : list string) : Sorted String.le (sort l).
Proof. apply (Sorted_merge_sort String.le). Qed.

Lemma sort_permutation (l : list string) : sort l ≡ₚ l.
Proof. apply (merge_sort_Permutation String.le). Qed.

Lemma elem_of_sort (x : string) (l : list string) : x ∈ sort l ↔ x ∈ l.
Proof. by rewrite sort_permutation. Qed.

(** The order is total and antisymmetric, so a list has one sorted
    arrangement: whatever algorithm the engine sorts with, [sort] is
    its result. *)
Lemma sort_unique (l l' : list string) :
  Sorted String.le l' → l' ≡ₚ l → l' = sort l.
Proof.
  intros Hs Hp. apply (Sorted_unique String.le); [done | apply sort_sorted |].
  by rewrite sort_permutation.
Qed.

Lemma includes_elem_of (l : list string) (x : string) :
  includes l x = true ↔ x ∈ l.
Proof.
  unfold includes. rewrite existsb_exists, list_elem_of_In. split.
  - by intros (y & Hy & ->%String.eqb_eq).
  - intros Hx. exists x. by rewrite String.eqb_refl.
Qed.

Lemma elem_of_differences (key : string) (names ymls : list string) :
  key ∈ differences names ymls ↔ key ∈ names ∧ key ∉ ymls.
Proof.
  unfold differences. rewrite list_elem_of_In, filter_In, <- list_elem_of_In.
  rewrite negb_true_iff, <- not_true_iff_false, includes_elem_of. tauto.
Qed.

Lemma filter_strongly_sorted {A} (R : relation A) (p : A → bool) (l : list A) :
  StronglySorted R l → StronglySorted R (List.filter p l).
Proof.
  induction 1 as [|x l Hl IH Hx]; simpl; [constructor |].
  destruct (p x); [| done]. constructor; [done |].
  rewrite Forall_forall in Hx |- *. intros y Hy.
  apply Hx. rewrite list_elem_of_In in Hy |- *.
  by apply filter_In in Hy as [? _].
Qed.

Lemma differences_sorted (names ymls : list string) :
  Sorted String.le names → Sorted String.le (differences names ymls).
Proof.
  intros Hs. apply StronglySorted_Sorted, filter_strongly_sorted.
  by apply (Sorted_StronglySorted String.le).
Qed.

Lemma differences_nil (names ymls : list string) :
  (∀ key, key ∈ names → key ∈ ymls) → differences names ymls = [].
Proof.
  intros Hall. destruct (differences names ymls) as [|key d] eqn:Hd; [done |].
  assert (key ∈ differences names ymls) as Hk by (rewrite Hd; left).
  apply elem_of_differences in Hk as [Hk Hn]. destruct Hn. by apply Hall.
Qed.

End Arrays.

(** * Computations that may throw *)

Section Outcome.

Context {A B : Type} (f : A → outcome B).

Lemma mapM_cons (x : A) (l : list A) :
  mapM f (x :: l) =
    match f x with
    | Return y =>
        match mapM f l with
        | Return k => Return (y :: k)
        | Throw e => Throw e
        end
    | Throw e => Throw e
    end.
Proof. reflexivity. Qed.

Lemma mapM_Return (l : list A) (ys : list B) :
  mapM f l = Return ys ↔ Forall2 (λ x y, f x = Return y) l ys.
Proof.
  revert ys. induction l as [|x l IH]; intros ys.
  - split.
    + intros [= <-]. constructor.
    + by intros ->%Forall2_nil_inv_l.
  - rewrite mapM_cons. split.
    + destruct (f x) as [y|e] eqn:Hx; [| done].
      destruct (mapM f l) as [k|e] eqn:Hl; [| done].
      intros [= <-]. constructor; [done |]. by apply IH.
    + intros (y & k & Hx & Hl & ->)%Forall2_cons_inv_l.
      rewrite Hx. apply IH in Hl. by rewrite Hl.
Qed.

Lemma mapM_Throw (l : list A) (e : exn) :
  mapM f l = Throw e → ∃ x, x ∈ l ∧ f x = Throw e.
Proof.
  induction l as [|x l IH]; [done |].
  rewrite mapM_cons. destruct (f x) as [y|e'] eqn:Hx.
  - destruct (mapM f l) as [k|e'']; [done |]. intros [= ->].
    destruct IH as (x' & ? & ?); [done |]. exists x'. split; [by right | done].
  - intros [= ->]. exists x. split; [left | done].
Qed.

Lemma mapM_fails (l : list A) (x : A) (e : exn) :
  x ∈ l → f x = Throw e → ∃ e', mapM f l = Throw e'.
Proof.
  intros Hx Hfx. destruct (mapM f l) as [ys|e'] eqn:Hl; [| by exists e'].
  apply mapM_Return in Hl.
  apply list_elem_of_lookup in Hx as [i Hi].
  destruct (Forall2_lookup_l _ _ _ i x Hl Hi) as (y & _ & Hy). congruence.
Qed.

End Outcome.

(** * The pure parts of the script: ids, keys, first match *)

Section Records.

Lemma get_throws (v : value) (key : string) (e : exn) :
  get v key = Throw e → e = TypeError.
Proof. destruct v; simpl; congruence. Qed.

Lemma call_normalizeFileName_throws (v : value) (e : exn) :
  call_normalizeFileName v = Throw e → e = TypeError.
Proof. destruct v; simpl; congruence. Qed.

Lemma call_normalizeFileName_Return (v : value) (name : string) :
  call_normalizeFileName v = Return name →
  ∃ s, v = VStr s ∧ name = normalizeFileName s.
Proof. destruct v; simpl; intros [= <-]. by eexists. Qed.

Lemma getJsonObjectNames_unfold (jsonData : list value) :
  getJsonObjectNames jsonData =
    match mapM (λ service, get service "id") jsonData with
    | Return jsonServicesId =>
        match mapM call_normalizeFileName jsonServicesId with
        | Return formattedServicesId => Return (sort formattedServicesId)
        | Throw e => Throw e
        end
    | Throw e => Throw e
    end.
Proof. reflexivity. Qed.

(** On records with string ids the key list is the sorted list of
    the normalized ids. *)
Lemma getJsonObjectNames_ids (L : list value) (ids : list string) :
  Forall2 has_id L ids →
  getJsonObjectNames L = Return (sort (map normalizeFileName ids)).
Proof.
  intros Hids. rewrite getJsonObjectNames_unfold.
  assert (mapM (λ service, get service "id") L = Return (map VStr ids)) as ->.
  { apply mapM_Return. induction Hids; simpl; by constructor. }
  assert (mapM call_normalizeFileName (map VStr ids)
          = Return (map normalizeFileName ids)) as ->; [| done].
  apply mapM_Return. clear Hids. induction ids; simpl; by constructor.
Qed.

(** The key list exists only for records with string ids. *)
Lemma getJsonObjectNames_Return (L : list value) (names : list string) :
  getJsonObjectNames L = Return names →
  ∃ ids, Forall2 has_id L ids ∧ names = sort (map normalizeFileName ids).
Proof.
  rewrite getJsonObjectNames_unfold.
  destruct (mapM _ L) as [vs|] eqn:Hvs; [| done].
  destruct (mapM _ vs) as [ns|] eqn:Hns; [| done]. intros [= <-].
  apply mapM_Return in Hvs, Hns.
  assert (∃ ids, vs = map VStr ids ∧ ns = map normalizeFileName ids)
    as (ids & -> & ->).
  { clear Hvs. induction Hns as [|v n vs ns Hv _ (ids & -> & ->)].
    - by exists [].
    - apply call_normalizeFileName_Return in Hv as (s & -> & ->).
      by exists (s :: ids). }
  exists ids. split; [| done].
  clear Hns. revert L Hvs. induction ids as [|i ids IH]; simpl; intros L HL.
  - apply Forall2_nil_inv_r in HL as ->. constructor.
  - apply Forall2_cons_inv_r in HL as (v & L' & Hv & HL' & ->).
    constructor; [done | by apply IH].
Qed.

(** One record without a string id makes the key list a [TypeError]. *)
Lemma getJsonObjectNames_ill_formed (L : list value) (v : value) :
  v ∈ L → ill_formed v → getJsonObjectNames L = Throw TypeError.
Proof.
  intros Hv Hill.
  destruct (getJsonObjectNames L) as [names|e] eqn:Hnames.
  - apply getJsonObjectNames_Return in Hnames as (ids & Hids & _).
    apply list_elem_of_lookup in Hv as [n Hn].
    destruct (Forall2_lookup_l _ _ _ n v Hids Hn) as (id & _ & Hid).
    by destruct (Hill id).
  - f_equal. rewrite getJsonObjectNames_unfold in Hnames.
    destruct (mapM _ L) as [vs|e1] eqn:Hvs.
    + destruct (mapM _ vs) as [ns|e2] eqn:Hns; [done |].
      injection Hnames as <-.
      apply mapM_Throw in Hns as (x & _ & Hx).
      by apply call_normalizeFileName_throws in Hx.
    + injection Hnames as <-.
      apply mapM_Throw in Hvs as (x & _ & Hx). by apply get_throws in Hx.
Qed.

Lemma matches_has_id (key : string) (r : value) (id : string) :
  has_id r id → matches key r = Return (String.eqb (normalizeFileName id) key).
Proof. unfold has_id, matches. by intros ->. Qed.

(** [find] with the callback of line 108 returns the first record
    whose normalized id is the key. *)
Lemma find_first_match (L : list value) (ids : list string) (key : string) :
  Forall2 has_id L ids →
  key ∈ map normalizeFileName ids →
  ∃ r, find (matches key) L = Return r ∧ first_match L key r.
Proof.
  induction 1 as [|r id L ids Hr HL IH]; simpl.
  - by intros ?%elem_of_nil.
  - intros Hkey. rewrite (matches_has_id key r id Hr).
    destruct (String.eqb_spec (normalizeFileName id) key) as [Heq|Hne].
    + exists r. split; [done |]. exists [], L, id.
      repeat split; [done.. |]. by intros x j ?%elem_of_nil.
    + apply elem_of_cons in Hkey as [Hkey|Hkey]; [congruence |].
      destruct (IH Hkey) as (r' & Hfind & before & after & id' & -> & ? & ? & Hb).
      exists r'. split; [done |]. exists (r :: before), after, id'.
      repeat split; [done.. |].
      intros x j [->|Hx]%elem_of_cons Hj; [| by eapply Hb].
      unfold has_id in Hr, Hj. congruence.
Qed.

Lemma removedServicesObjects_first_match
    (L : list value) (ids keys : list string) :
  Forall2 has_id L ids →
  (∀ key, key ∈ keys → key ∈ map normalizeFileName ids) →
  ∃ objects,
    removedServicesObjects keys L = Return objects
    ∧ Forall2 (first_match L) keys objects.
Proof.
  intros HL Hkeys. unfold removedServicesObjects.
  induction keys as [|key keys IH].
  - exists []. split; [done | constructor].
  - destruct IH as (objects & Hobjs & Hall).
    { intros k Hk. apply Hkeys. by right. }
    destruct (find_first_match L ids key HL) as (r & Hfind & Hfirst).
    { apply Hkeys. left. }
    exists (r :: objects). split; [| by constructor].
    rewrite mapM_cons, Hfind, Hobjs. done.
Qed.

(** The first match of a key is one record: the predicate determines
    it. *)
Lemma first_match_unique (L : list value) (key : string) (r r' : value) :
  first_match L key r → first_match L key r' → r = r'.
Proof.
  intros (b & a & i & -> & Hi & Hk & Hb) (b' & a' & i' & Heq & Hi' & Hk' & Hb').
  revert b' Heq Hb'. induction b as [|x b IH]; intros [|x' b'] Heq Hb'; simpl in *.
  - congruence.
  - injection Heq as <- _. destruct (Hb' r i); [left | done | done].
  - injection Heq as -> _. destruct (Hb r' i'); [left | done | done].
  - injection Heq as <- Heq. eapply IH; [| done |].
    + intros y j Hy. apply Hb. by right.
    + intros y j Hy. apply Hb'. by right.
Qed.

End Records.

(** * The effects of each function *)

Section Effects.

Context `{Node}.

Lemma bind_run {A B} (m : io A) (f : A → io B) (w : world) :
  (m ≫= f) w =
    match m w with
    | (Return a, w') => f a w'
    | (Throw e, w') => (Throw e, w')
    end.
Proof. reflexivity. Qed.

Lemma put_nil (w : world) : put [] w = w.
Proof. destruct w. unfold put. simpl. by rewrite app_nil_r. Qed.

Lemma put_put (es1 es2 : list (string * string)) (w : world) :
  put es2 (put es1 w) = put (es1 ++ es2) w.
Proof. unfold put. simpl. by rewrite foldl_app, app_assoc. Qed.

Lemma attempt_put (es : list (string * string)) (w : world) (r : value) :
  attempt (put es w) r = attempt w r.
Proof. reflexivity. Qed.

(** [getJsonObjects] returns what was loaded, or logs the failure
    and returns [null]. *)
Lemma getJsonObjects_run (jsonFilePath : string) (w : world) :
  getJsonObjects jsonFilePath w =
    match loaded w jsonFilePath with
    | Return v => (Return v, w)
    | Throw e =>
        (Return VNull, print [ErrorLine "Error while reading JSON file:" e] w)
    end.
Proof.
  unfold getJsonObjects, try_catch, loaded. rewrite bind_run.
  unfold fs.readFile. destruct (files w !! jsonFilePath) as [text|]; [| done].
  rewrite bind_run. unfold lift at 1.
  destruct (JSON_parse text) as [doc|e]; [| done].
  unfold lift. simpl. by destruct (get doc "blocked_services").
Qed.

(** [getYmlFileNames] has no handler of its own: a directory that
    cannot be listed is an exception of the caller. *)
Lemma getYmlFileNames_run (servicesFolderPath : string) (w : world) :
  getYmlFileNames servicesFolderPath w =
    match dirs w !! servicesFolderPath with
    | Some listing => (Return (sort (file_keys listing)), w)
    | None => (Throw (SystemError "ENOENT"), w)
    end.
Proof.
  unfold getYmlFileNames. rewrite bind_run. unfold fs.readdir.
  destruct (dirs w !! servicesFolderPath) as [listing|]; [| done].
  unfold file_keys. by rewrite map_map.
Qed.

(** One round of [writeRemovedServices]. *)
Lemma writeRemovedServices_cons (r : value) (rest : list value) (w : world) :
  writeRemovedServices (r :: rest) w =
    match attempt w r with
    | Return e => writeRemovedServices rest (put [e] w)
    | Throw e => (Throw e, w)
    end.
Proof.
  unfold attempt. cbn [writeRemovedServices]. rewrite bind_run. unfold lift at 1.
  destruct (get r "id") as [id|e]; [| done]. simpl mbind at 2.
  cbv beta zeta. rewrite bind_run. unfold lift at 1.
  destruct (yaml_dump r (-1)) as [data|e]; [| done]. simpl mbind at 2.
  rewrite bind_run. unfold fs.writeFile.
  destruct (faults w !! _) as [e|]; [done |].
  fold (put [(path_join (servicesDir +:+ "/" +:+ template id +:+ YML_FILE_EXTENSION), data)] w).
  by destruct rest.
Qed.

Lemma attempt_faults (w w' : world) (r : value) :
  faults w = faults w' → attempt w r = attempt w' r.
Proof. unfold attempt. by intros ->. Qed.

(** Rounds that succeed one after the other. *)
Lemma writeRemovedServices_prefix
    (done rest : list value) (entries : list (string * string)) (w0 w : world) :
  faults w = faults w0 →
  Forall2 (λ r e, attempt w0 r = Return e) done entries →
  writeRemovedServices (done ++ rest) w
  = writeRemovedServices rest (put entries w).
Proof.
  intros Hf Hall. revert w Hf.
  induction Hall as [|r e done entries Hr _ IH]; intros w Hf.
  - by rewrite put_nil.
  - simpl app. rewrite writeRemovedServices_cons.
    rewrite (attempt_faults w w0 r Hf), Hr.
    rewrite IH by done. by rewrite put_put.
Qed.

(** Writes that all succeed. *)
Lemma writeRemovedServices_ok
    (objects : list value) (entries : list (string * string)) (w : world) :
  Forall2 (λ r e, attempt w r = Return e) objects entries →
  writeRemovedServices objects w = (Return (), put entries w).
Proof.
  intros Hall.
  rewrite <- (app_nil_r objects).
  by rewrite (writeRemovedServices_prefix objects [] entries w w).
Qed.

(** The first round that fails ends the recursion: the rounds before
    it are done, the rounds after it never start. *)
Lemma writeRemovedServices_fail
    (done rest : list value) (r : value) (entries : list (string * string))
    (e : exn) (w : world) :
  Forall2 (λ r e, attempt w r = Return e) done entries →
  attempt w r = Throw e →
  writeRemovedServices (done ++ r :: rest) w = (Throw e, put entries w).
Proof.
  intros Hall Hr.
  rewrite (writeRemovedServices_prefix done (r :: rest) entries w w) by done.
  by rewrite writeRemovedServices_cons, attempt_put, Hr.
Qed.

(** Every run of the writer is of one of these two kinds. *)
Lemma writeRemovedServices_cases (objects : list value) (w : world) :
  (∃ entries,
      Forall2 (λ r e, attempt w r = Return e) objects entries
      ∧ writeRemovedServices objects w = (Return (), put entries w))
  ∨ (∃ done r rest entries e,
        objects = done ++ r :: rest
        ∧ Forall2 (λ r e, attempt w r = Return e) done entries
        ∧ attempt w r = Throw e
        ∧ writeRemovedServices objects w = (Throw e, put entries w)).
Proof.
  induction objects as [|r objects IH].
  - left. exists []. split; [constructor | by rewrite put_nil].
  - destruct (attempt w r) as [en|e] eqn:Hr.
    + destruct IH as [(entries & Hall & _)
                     | (done & r' & rest & entries & e & -> & Hall & Hr' & _)].
      * left. exists (en :: entries). split; [by constructor |].
        apply writeRemovedServices_ok. by constructor.
      * right. exists (r :: done), r', rest, (en :: entries), e.
        split; [done |]. split; [by constructor |]. split; [done |].
        apply (writeRemovedServices_fail (r :: done)); [by constructor | done].
    + right. exists [], r, objects, [], e.
      split; [done |]. split; [constructor |]. split; [done |].
      by apply (writeRemovedServices_fail []); [constructor |].
Qed.

(** [rewriteYMLFile] hands every exception of its body to the
    console. *)
Lemma rewriteYMLFile_run (names : list string) (L : list value) (w : world) :
  rewriteYMLFile names L w =
    match removedServicesObjects names L with
    | Return objects =>
        match writeRemovedServices objects w with
        | (Throw e, w') =>
            (Return (), print [ErrorLine "Error while rewriting file:" e] w')
        | r => r
        end
    | Throw e => (Return (), print [ErrorLine "Error while rewriting file:" e] w)
    end.
Proof.
  unfold rewriteYMLFile, try_catch. rewrite bind_run. unfold lift.
  destruct (removedServicesObjects names L) as [objects|e]; [| done].
  by destruct (writeRemovedServices objects w) as [[[]|e] w'].
Qed.

(** No exception leaves [rewriteYMLFile]. *)
Lemma rewriteYMLFile_returns (names : list string) (L : list value) (w : world) :
  (rewriteYMLFile names L w).1 = Return ().
Proof.
  rewrite rewriteYMLFile_run.
  destruct (removedServicesObjects names L) as [objects|e]; [| done].
  by destruct (writeRemovedServices objects w) as [[[]|e] w'].
Qed.

(** A run whose legacy document holds an array. *)
Lemma checkRemovedServices_array
    (servicesFolderPath jsonFilePath : string) (L : list value) (w : world) :
  loaded w jsonFilePath = Return (VArr L) →
  checkRemovedServices servicesFolderPath jsonFilePath w =
    match dirs w !! servicesFolderPath with
    | None => (Throw (SystemError "ENOENT"), w)
    | Some listing =>
        match getJsonObjectNames L with
        | Throw e => (Throw e, w)
        | Return names =>
            let d := differences names (sort (file_keys listing)) in
            match d with
            | [] => (Return (), w)
            | _ :: _ =>
                match rewriteYMLFile d L w with
                | (Return _, w') => (Return (), print [LogLine (summary d)] w')
                | (Throw e, w') => (Throw e, w')
                end
            end
        end
    end.
Proof.
  intros Hload. unfold checkRemovedServices.
  rewrite bind_run, getJsonObjects_run, Hload. cbv beta iota.
  rewrite bind_run, getYmlFileNames_run.
  destruct (dirs w !! servicesFolderPath) as [listing|]; [| done].
  rewrite bind_run. unfold lift.
  destruct (getJsonObjectNames L) as [names|e]; [| done].
  cbv zeta. destruct (differences names (sort (file_keys listing))) as [|k d]; [done |].
  change (0 <? length (k :: d)) with true. cbv iota. rewrite bind_run.
  by destruct (rewriteYMLFile (k :: d) L w) as [[[]|e] w'].
Qed.

(** A run whose legacy document holds no array. *)
Lemma checkRemovedServices_no_array
    (servicesFolderPath jsonFilePath : string) (w : world) :
  (∀ L, loaded w jsonFilePath ≠ Return (VArr L)) →
  checkRemovedServices servicesFolderPath jsonFilePath w =
    (Return (),
     match loaded w jsonFilePath with
     | Return _ => w
     | Throw e => print [ErrorLine "Error while reading JSON file:" e] w
     end).
Proof.
  intros Hno. unfold checkRemovedServices.
  rewrite bind_run, getJsonObjects_run.
  destruct (loaded w jsonFilePath) as [v|e]; [| done].
  destruct v; try done. by destruct (Hno elements).
Qed.

End Effects.

(** * The differ *)

Section Differ.

Context `{Node}.

(** C1.  When the legacy document holds an array of records with
    string ids and the services directory can be listed, the diff of
    the run consists of exactly the normalized legacy ids that are
    not among the normalized, extension-stripped file names, in
    ascending order of the keys; the run acts on this diff and on
    nothing else. *)
Theorem differences_exact_ascending
    (servicesFolderPath jsonFilePath : string) (w : world)
    (L : list value) (ids listing : list string) :
  loaded w jsonFilePath = Return (VArr L) →
  Forall2 has_id L ids →
  dirs w !! servicesFolderPath = Some listing →
  let d := differences (sort (map normalizeFileName ids))
                       (sort (file_keys listing)) in
  getJsonObjectNames L = Return (sort (map normalizeFileName ids))
  ∧ (∀ key, key ∈ d ↔
              key ∈ map normalizeFileName ids ∧ key ∉ file_keys listing)
  ∧ Sorted String.le d
  ∧ checkRemovedServices servicesFolderPath jsonFilePath w =
      (Return (),
       match d with
       | [] => w
       | _ :: _ => print [LogLine (summary d)] (rewriteYMLFile d L w).2
       end).
Proof.
  intros Hload Hids Hdir d.
  pose proof (getJsonObjectNames_ids L ids Hids) as Hnames.
  split; [done |]. split; [| split].
  - intros key. unfold d. by rewrite elem_of_differences, !elem_of_sort.
  - apply differences_sorted, sort_sorted.
  - rewrite (checkRemovedServices_array _ _ L) by done.
    rewrite Hdir, Hnames. cbv zeta. fold d. destruct d as [|k d']; [done |].
    pose proof (rewriteYMLFile_returns (k :: d') L w) as Hret.
    destruct (rewriteYMLFile (k :: d') L w) as [[[]|e] w']; [done |].
    by simpl in Hret.
Qed.

(** C3.  When every normalized legacy id is among the normalized
    file names, the diff is empty and the run leaves the world as it
    was: no file is written and no line is logged. *)
Theorem nothing_missing_nothing_done
    (servicesFolderPath jsonFilePath : string) (w : world)
    (L : list value) (ids listing : list string) :
  loaded w jsonFilePath = Return (VArr L) →
  Forall2 has_id L ids →
  dirs w !! servicesFolderPath = Some listing →
  (∀ id, id ∈ ids → normalizeFileName id ∈ file_keys listing) →
  differences (sort (map normalizeFileName ids)) (sort (file_keys listing)) = []
  ∧ checkRemovedServices servicesFolderPath jsonFilePath w = (Return (), w).
Proof.
  intros Hload Hids Hdir Hall.
  assert (differences (sort (map normalizeFileName ids))
                      (sort (file_keys listing)) = []) as Hd.
  { apply differences_nil. intros key.
    rewrite !elem_of_sort, elem_of_map. intros (id & -> & Hid). by apply Hall. }
  split; [done |].
  rewrite (checkRemovedServices_array _ _ L) by done.
  by rewrite Hdir, (getJsonObjectNames_ids L ids Hids), Hd.
Qed.

(** C4.  Every missing key is resolved to the first record of the
    legacy array whose normalized id is the key, and these are the
    records the writer is run on; ids that normalize to one key
    share the first of their records. *)
Theorem first_record_wins
    (L : list value) (ids ymlFileNames : list string) (w : world) :
  Forall2 has_id L ids →
  let d := differences (sort (map normalizeFileName ids)) ymlFileNames in
  ∃ objects,
    removedServicesObjects d L = Return objects
    ∧ Forall2 (first_match L) d objects
    ∧ rewriteYMLFile d L w =
        match writeRemovedServices objects w with
        | (Throw e, w') =>
            (Return (), print [ErrorLine "Error while rewriting file:" e] w')
        | r => r
        end.
Proof.
  intros Hids d.
  destruct (removedServicesObjects_first_match L ids d Hids)
    as (objects & Hobjs & Hall).
  { intros key [Hkey _]%elem_of_differences. by rewrite elem_of_sort in Hkey. }
  exists objects. split; [done |]. split; [done |].
  by rewrite rewriteYMLFile_run, Hobjs.
Qed.

End Differ.

Lemma differences_exact_ascending_witness :
  let N := Sample.node (Sample.legacy [Sample.record "Example.com"; Sample.record "other"]) in
  let w := Sample.start "/repo/services" ["other.yml"] ∅ in
  let d := differences (sort (map normalizeFileName ["Example.com"; "other"]))
                       (sort (file_keys ["other.yml"])) in
  d = ["example.com"]
  ∧ (∀ key, key ∈ d ↔
       key ∈ map normalizeFileName ["Example.com"; "other"]
       ∧ key ∉ file_keys ["other.yml"])
  ∧ Sorted String.le d
  ∧ checkRemovedServices "/repo/services" "/repo/services.json" w =
      (Return (),
       print [LogLine (summary d)]
         (rewriteYMLFile d [Sample.record "Example.com"; Sample.record "other"] w).2).
Proof.
  intros N w d. split; [reflexivity |].
  refine (proj2 (differences_exact_ascending
            "/repo/services" "/repo/services.json" w
            [Sample.record "Example.com"; Sample.record "other"]
            ["Example.com"; "other"] ["other.yml"] _ _ _)).
  - reflexivity.
  - repeat constructor.
  - reflexivity.
Defined.

Lemma nothing_missing_nothing_done_witness :
  let N := Sample.node (Sample.legacy [Sample.record "Other"; Sample.record "a-b"]) in
  let w := Sample.start "/repo/services" ["other.yml"; "AB.yml"] ∅ in
  differences (sort (map normalizeFileName ["Other"; "a-b"]))
              (sort (file_keys ["other.yml"; "AB.yml"])) = []
  ∧ checkRemovedServices "/repo/services" "/repo/services.json" w = (Return (), w).
Proof.
  intros N w.
  refine (nothing_missing_nothing_done
            "/repo/services" "/repo/services.json" w
            [Sample.record "Other"; Sample.record "a-b"]
            ["Other"; "a-b"] ["other.yml"; "AB.yml"] _ _ _ _).
  - reflexivity.
  - repeat constructor.
  - reflexivity.
  - intros id Hid.
    repeat (apply elem_of_cons in Hid as [-> | Hid]);
      [apply list_elem_of_In; vm_compute; auto ..| by apply elem_of_nil in Hid].
Defined.

Lemma first_record_wins_witness :
  let N := Sample.node (Sample.legacy [Sample.record "A-B"; Sample.record "ab"]) in
  let w := Sample.start "/repo/services" ["other.yml"] ∅ in
  let L := [Sample.record "A-B"; Sample.record "ab"] in
  let d := differences (sort (map normalizeFileName ["A-B"; "ab"])) ["other"] in
  d = ["ab"; "ab"]
  ∧ ∃ objects,
      removedServicesObjects d L = Return objects
      ∧ Forall2 (first_match L) d objects
      ∧ rewriteYMLFile d L w =
          match writeRemovedServices objects w with
          | (Throw e, w') =>
              (Return (), print [ErrorLine "Error while rewriting file:" e] w')
          | r => r
          end.
Proof.
  intros N w L d. split; [reflexivity |].
  refine (first_record_wins L ["A-B"; "ab"] ["other"] w _).
  repeat constructor.
Defined.

(** The collision of the ids [A-B] and [ab]: both missing keys are
    resolved to the record [A-B], which is written twice, and the
    record [ab] gets no file. *)
Example collision_resolved :
  removedServicesObjects ["ab"; "ab"] [Sample.record "A-B"; Sample.record "ab"]
  = Return [Sample.record "A-B"; Sample.record "A-B"].
Proof. reflexivity. Qed.

Example collision_written :
  let N := Sample.node (Sample.legacy [Sample.record "A-B"; Sample.record "ab"]) in
  let w := Sample.start "/repo/services" ["other.yml"] ∅ in
  written (checkRemovedServices "/repo/services" "/repo/services.json" w).2
  = [("/repo/services/A-B.yml", "id: A-B" +:+ String "010"%char "");
     ("/repo/services/A-B.yml", "id: A-B" +:+ String "010"%char "")].
Proof. reflexivity. Qed.

(** * Failures *)

Section Failures.

Context `{Node}.

Lemma print_nil (w : world) : print [] w = w.
Proof. destruct w. unfold print. simpl. by rewrite app_nil_r. Qed.

Lemma print_print (ls1 ls2 : list line) (w : world) :
  print ls2 (print ls1 w) = print (ls1 ++ ls2) w.
Proof. unfold print. simpl. by rewrite app_assoc. Qed.

Lemma legacy_failure_loaded (w : world) (jsonFilePath : string) (lines : list line) :
  legacy_failure w jsonFilePath lines →
  (∀ L, loaded w jsonFilePath ≠ Return (VArr L))
  ∧ lines = match loaded w jsonFilePath with
            | Return _ => []
            | Throw e => [ErrorLine "Error while reading JSON file:" e]
            end.
Proof.
  unfold loaded.
  intros [Hfile | text e Hfile Hparse | text doc v Hfile Hparse Hget Harr].
  - by rewrite Hfile.
  - by rewrite Hfile, Hparse.
  - rewrite Hfile, Hparse. simpl. rewrite Hget. split; [| done].
    intros L [= ->]. done.
Qed.

(** C5.  When the legacy file cannot be read or its text cannot be
    parsed, the run returns normally, writes no file and logs exactly
    one error line; when the value under [blocked_services] is no
    array, the run returns normally and does nothing at all. *)
Theorem load_failure_is_quiet
    (servicesFolderPath jsonFilePath : string) (w : world) (lines : list line) :
  legacy_failure w jsonFilePath lines →
  checkRemovedServices servicesFolderPath jsonFilePath w
  = (Return (), print lines w).
Proof.
  intros (Hno & ->)%legacy_failure_loaded.
  rewrite checkRemovedServices_no_array by done.
  destruct (loaded w jsonFilePath); [by rewrite print_nil | done].
Qed.

Lemma removedServicesObjects_length
    (names : list string) (L objects : list value) :
  removedServicesObjects names L = Return objects →
  length names = length objects.
Proof. intros Hobjs%mapM_Return. by eapply Forall2_length. Qed.

(** The writer under [rewriteYMLFile], when a round fails. *)
Lemma rewriteYMLFile_fail
    (names : list string) (L done rest : list value) (r : value)
    (entries : list (string * string)) (e : exn) (w : world) :
  removedServicesObjects names L = Return (done ++ r :: rest) →
  Forall2 (λ r e, attempt w r = Return e) done entries →
  attempt w r = Throw e →
  rewriteYMLFile names L w
  = (Return (), print [ErrorLine "Error while rewriting file:" e] (put entries w)).
Proof.
  intros Hobjs Hdone Hr. rewrite rewriteYMLFile_run, Hobjs.
  by rewrite (writeRemovedServices_fail done rest r entries e w).
Qed.


(** C6.  When a write of the batch fails, after the writes [entries]
    of the records before it, the run still returns normally: the
    files of [entries] are written and stay, the writes after the
    failure never happen, the error is logged, and the summary line
    with all the missing keys follows it. *)
Theorem write_failure_is_contained
    (servicesFolderPath jsonFilePath : string) (w : world)
    (L : list value) (ids listing : list string)
    (done rest : list value) (r : value)
    (entries : list (string * string)) (e : exn) :
  loaded w jsonFilePath = Return (VArr L) →
  Forall2 has_id L ids →
  dirs w !! servicesFolderPath = Some listing →
  let d := differences (sort (map normalizeFileName ids))
                       (sort (file_keys listing)) in
  removedServicesObjects d L = Return (done ++ r :: rest) →
  Forall2 (λ r e, attempt w r = Return e) done entries →
  attempt w r = Throw e →
  checkRemovedServices servicesFolderPath jsonFilePath w
  = (Return (),
     print [ErrorLine "Error while rewriting file:" e; LogLine (summary d)]
           (put entries w)).
Proof.
  intros Hload Hids Hdir d Hobjs Hdone Hr.
  rewrite (checkRemovedServices_array _ _ L) by done.
  rewrite Hdir, (getJsonObjectNames_ids L ids Hids). cbv zeta. fold d.
  pose proof (removedServicesObjects_length _ _ _ Hobjs) as Hlen.
  rewrite (rewriteYMLFile_fail d L done rest r entries e w) by done.
  destruct d as [|k d'].
  - rewrite length_app in Hlen. simpl in Hlen. lia.
  - by rewrite print_print.
Qed.

(** C7.  The listing of the services directory is the one I/O
    operation of a run without a handler: when the directory cannot
    be listed, the exception of [readdir] leaves the entry point and
    nothing is logged. *)
Theorem listing_failure_escapes
    (servicesFolderPath jsonFilePath : string) (w : world) (L : list value) :
  loaded w jsonFilePath = Return (VArr L) →
  dirs w !! servicesFolderPath = None →
  checkRemovedServices servicesFolderPath jsonFilePath w
  = (Throw (SystemError "ENOENT"), w).
Proof.
  intros Hload Hdir. rewrite (checkRemovedServices_array _ _ L) by done.
  by rewrite Hdir.
Qed.

(** C10, amended.  When the legacy array holds a record without a
    string id and the services directory can be listed, the
    [TypeError] of the normalizer leaves the entry point before any
    file is written and without a line on the console. *)
Theorem ill_formed_record_escapes
    (servicesFolderPath jsonFilePath : string) (w : world)
    (L : list value) (listing : list string) (v : value) :
  loaded w jsonFilePath = Return (VArr L) →
  dirs w !! servicesFolderPath = Some listing →
  v ∈ L →
  ill_formed v →
  checkRemovedServices servicesFolderPath jsonFilePath w
  = (Throw TypeError, w).
Proof.
  intros Hload Hdir Hv Hill. rewrite (checkRemovedServices_array _ _ L) by done.
  by rewrite Hdir, (getJsonObjectNames_ill_formed L v).
Qed.

End Failures.

Lemma load_failure_is_quiet_witness :
  let N := Sample.node (Sample.legacy [Sample.record "Example.com"]) in
  let w := World {[ "/repo/services.json" := "{" ]}
                 {[ "/repo/services" := ["other.yml"] ]} ∅ [] [] in
  checkRemovedServices "/repo/services" "/repo/services.json" w
  = (Return (), print [ErrorLine "Error while reading JSON file:" SyntaxError] w).
Proof.
  intros N w.
  refine (load_failure_is_quiet "/repo/services" "/repo/services.json" w _ _).
  refine (unparsable w "/repo/services.json" "{" SyntaxError _ _); reflexivity.
Defined.

(** The other two kinds of failure, on the same script. *)
Example unreadable_legacy_file :
  let N := Sample.node (Sample.legacy [Sample.record "Example.com"]) in
  let w := World ∅ {[ "/repo/services" := ["other.yml"] ]} ∅ [] [] in
  checkRemovedServices "/repo/services" "/repo/services.json" w
  = (Return (),
     World ∅ {[ "/repo/services" := ["other.yml"] ]} ∅
           [ErrorLine "Error while reading JSON file:" (SystemError "ENOENT")] []).
Proof. reflexivity. Qed.

Example legacy_without_array :
  let N := Sample.node (VObj [("blocked_services", VStr "none")]) in
  let w := Sample.start "/repo/services" ["other.yml"] ∅ in
  checkRemovedServices "/repo/services" "/repo/services.json" w = (Return (), w).
Proof. reflexivity. Qed.

Lemma write_failure_is_contained_witness :
  let N := Sample.node
             (Sample.legacy [Sample.record "b"; Sample.record "c"; Sample.record "a"]) in
  let w := Sample.start "/repo/services" ["other.yml"]
             {[ "/repo/services/b.yml" := SystemError "EACCES" ]} in
  checkRemovedServices "/repo/services" "/repo/services.json" w
  = (Return (),
     print [ErrorLine "Error while rewriting file:" (SystemError "EACCES");
            LogLine "These services have been removed: a, b, c, and were rewritten"]
           (put [("/repo/services/a.yml", "id: a" +:+ String "010"%char "")] w)).
Proof.
  intros N w.
  refine (write_failure_is_contained
            "/repo/services" "/repo/services.json" w
            [Sample.record "b"; Sample.record "c"; Sample.record "a"]
            ["b"; "c"; "a"] ["other.yml"]
            [Sample.record "a"] [Sample.record "c"] (Sample.record "b")
            [("/repo/services/a.yml", "id: a" +:+ String "010"%char "")]
            (SystemError "EACCES") _ _ _ _ _ _).
  - reflexivity.
  - repeat constructor.
  - reflexivity.
  - reflexivity.
  - repeat constructor.
  - reflexivity.
Defined.

(** A key that no legacy record matches is resolved to [undefined];
    the round on it fails with a [TypeError], which [rewriteYMLFile]
    logs. *)
Example unmatched_key_is_logged :
  let N := Sample.node (Sample.legacy [Sample.record "a"]) in
  let w := Sample.start "/repo/services" [] ∅ in
  rewriteYMLFile ["zz"; "a"] [Sample.record "a"] w
  = (Return (), print [ErrorLine "Error while rewriting file:" TypeError] w).
Proof. reflexivity. Qed.

Lemma listing_failure_escapes_witness :
  let N := Sample.node (Sample.legacy [Sample.record "Example.com"]) in
  let w := Sample.start "/repo/services" ["other.yml"] ∅ in
  checkRemovedServices "/repo/nowhere" "/repo/services.json" w
  = (Throw (SystemError "ENOENT"), w).
Proof.
  intros N w.
  refine (listing_failure_escapes "/repo/nowhere" "/repo/services.json" w
            [Sample.record "Example.com"] _ _); reflexivity.
Defined.

Lemma ill_formed_record_escapes_witness :
  let N := Sample.node
             (Sample.legacy [Sample.record "b"; VObj [("name", VStr "x")]]) in
  let w := Sample.start "/repo/services" ["other.yml"] ∅ in
  checkRemovedServices "/repo/services" "/repo/services.json" w
  = (Throw TypeError, w).
Proof.
  intros N w.
  refine (ill_formed_record_escapes "/repo/services" "/repo/services.json" w
            [Sample.record "b"; VObj [("name", VStr "x")]] ["other.yml"]
            (VObj [("name", VStr "x")]) _ _ _ _).
  - reflexivity.
  - reflexivity.
  - right. left.
  - intros id. discriminate.
Defined.

(** C10 as stated fails when the services directory does not exist:
    the legacy array holds a record without an id, but the listing
    comes first and fails, so the normalizer is never reached and no
    [TypeError] is thrown. *)
Lemma listing_error_precedes_TypeError :
  let N := Sample.node
             (Sample.legacy [Sample.record "b"; VObj [("name", VStr "x")]]) in
  let w := Sample.start "/repo/services" ["other.yml"] ∅ in
  let L := [Sample.record "b"; VObj [("name", VStr "x")]] in
  loaded w "/repo/services.json" = Return (VArr L)
  ∧ (∃ v, v ∈ L ∧ ill_formed v)
  ∧ (checkRemovedServices "/repo/nowhere" "/repo/services.json" w).1
    = Throw (SystemError "ENOENT")
  ∧ (checkRemovedServices "/repo/nowhere" "/repo/services.json" w).1
    ≠ Throw TypeError.
Proof.
  intros N w L. split; [reflexivity |]. split; [| split].
  - exists (VObj [("name", VStr "x")]). split; [right; left |].
    intros id. discriminate.
  - reflexivity.
  - discriminate.
Qed.

(** * The writer *)

Section Writer.

Context `{Node}.

Lemma attempt_has_id (w : world) (r : value) (id : string) (entry : string * string) :
  has_id r id →
  attempt w r = Return entry →
  ∃ data,
    yaml_dump r (-1) = Return data
    ∧ faults w !! file_of_id id = None
    ∧ entry = (file_of_id id, data).
Proof.
  unfold has_id, attempt, file_of_id. intros ->. simpl.
  destruct (yaml_dump r (-1)) as [data|]; [| done]. simpl.
  destruct (faults w !! _) eqn:Hf; [done |]. intros [= <-]. by exists data.
Qed.

Lemma first_match_elem_of (L : list value) (key : string) (r : value) :
  first_match L key r → r ∈ L.
Proof.
  intros (before & after & id & -> & _). apply elem_of_app. right. left.
Qed.

(** The successful rounds on resolved records write the files of
    their keys, one per key and in the order of the keys. *)
Lemma attempts_file_for
    (L : list value) (keys : list string) (objects : list value)
    (entries : list (string * string)) (w : world) :
  Forall2 (first_match L) keys objects →
  Forall2 (λ r e, attempt w r = Return e) objects entries →
  Forall2 (file_for L) keys entries.
Proof.
  intros Hres. revert entries.
  induction Hres as [|key r keys objects Hfirst _ IH]; intros entries Hatt.
  - apply Forall2_nil_inv_l in Hatt as ->. constructor.
  - apply Forall2_cons_inv_l in Hatt as (e & entries' & He & Hrest & ->).
    constructor; [| by apply IH].
    pose proof Hfirst as (_ & _ & id & _ & Hid & _).
    destruct (attempt_has_id w r id e Hid He) as (data & Hdump & _ & ->).
    by exists r, id, data.
Qed.

Lemma file_for_restores
    (L : list value) (listing : list string) (key : string)
    (entry : string * string) :
  key ∉ file_keys listing → file_for L key entry → restores L listing entry.
Proof.
  intros Hkey (r & id & data & Hfirst & Hid & Hdump & ->).
  exists r, id, data. split; [by eapply first_match_elem_of |].
  split; [done |]. split; [| done].
  destruct Hfirst as (_ & _ & id' & _ & Hid' & Hnorm & _).
  unfold has_id in Hid, Hid'. rewrite Hid in Hid'. by injection Hid' as <-; subst.
Qed.

(** Every run ends in the world it started in, with some lines more
    on the console and some files of missing records written. *)
Lemma checkRemovedServices_shape
    (servicesFolderPath jsonFilePath : string) (w : world) :
  ∃ lines entries,
    (checkRemovedServices servicesFolderPath jsonFilePath w).2
    = print lines (put entries w)
    ∧ ∀ entry, entry ∈ entries →
        ∃ L listing,
          loaded w jsonFilePath = Return (VArr L)
          ∧ dirs w !! servicesFolderPath = Some listing
          ∧ restores L listing entry.
Proof.
  assert (∀ w1 lines, w1 = print lines w →
            ∃ lines' entries,
              w1 = print lines' (put entries w)
              ∧ ∀ entry, entry ∈ entries →
                  ∃ L listing,
                    loaded w jsonFilePath = Return (VArr L)
                    ∧ dirs w !! servicesFolderPath = Some listing
                    ∧ restores L listing entry) as Hquiet.
  { intros w1 lines ->. exists lines, []. rewrite put_nil.
    split; [done | by intros entry ?%elem_of_nil]. }
  destruct (loaded w jsonFilePath) as [v|e] eqn:Hload.
  2:{ rewrite checkRemovedServices_no_array by (rewrite Hload; done).
      rewrite Hload. by eapply Hquiet. }
  destruct (isArray v) eqn:Harr.
  2:{ rewrite checkRemovedServices_no_array
        by (rewrite Hload; intros L [= ->]; done).
      rewrite Hload. apply (Hquiet _ []). by rewrite print_nil. }
  destruct v as [| | | | |L|]; try done. clear Harr.
  rewrite (checkRemovedServices_array _ _ L) by done.
  destruct (dirs w !! servicesFolderPath) as [listing|] eqn:Hdir.
  2:{ apply (Hquiet _ []). by rewrite print_nil. }
  destruct (getJsonObjectNames L) as [names|e] eqn:Hnames.
  2:{ apply (Hquiet _ []). by rewrite print_nil. }
  apply getJsonObjectNames_Return in Hnames as (ids & Hids & ->).
  cbv zeta. set (d := differences _ _).
  destruct (removedServicesObjects_first_match L ids d Hids)
    as (objects & Hobjs & Hres).
  { intros key [Hkey _]%elem_of_differences. by rewrite elem_of_sort in Hkey. }
  assert (∀ done entries entry,
            done `prefix_of` objects →
            Forall2 (λ r e, attempt w r = Return e) done entries →
            entry ∈ entries → restores L listing entry) as Hentries.
  { intros done entries entry [rest ->] Hatt Hentry.
    apply Forall2_app_inv_r in Hres as (keys1 & keys2 & Hres1 & _ & Hd).
    pose proof (attempts_file_for L keys1 done entries w Hres1 Hatt) as Hfor.
    apply list_elem_of_lookup in Hentry as [n Hn].
    destruct (Forall2_lookup_r _ _ _ n entry Hfor Hn) as (key & Hkey & Hfile).
    apply (file_for_restores L listing key); [| done].
    assert (key ∈ d) as [_ Hno]%elem_of_differences.
    { rewrite Hd. apply elem_of_app. left. by eapply list_elem_of_lookup_2. }
    by rewrite elem_of_sort in Hno. }
  destruct d as [|k d'] eqn:Hd; [apply (Hquiet _ []); by rewrite print_nil |].
  rewrite rewriteYMLFile_run, Hobjs.
  destruct (writeRemovedServices_cases objects w)
    as [(entries & Hatt & ->)
       | (done & r & rest & entries & e & Hsplit & Hatt & _ & ->)].
  - exists [LogLine (summary (k :: d'))], entries. split; [done |].
    intros entry Hentry. exists L, listing. split; [done |]. split; [done |].
    by apply (Hentries objects entries).
  - exists [ErrorLine "Error while rewriting file:" e; LogLine (summary (k :: d'))],
           entries.
    split; [by rewrite print_print |].
    intros entry Hentry. exists L, listing. split; [done |]. split; [done |].
    apply (Hentries done entries); [| done..]. by exists (r :: rest).
Qed.

End Writer.

(** * Where the files go *)

Section Files.

Context `{Node}.

Lemma foldl_insert_other
    (entries : list (string * string)) (m : gmap string string) (path : string) :
  path ∉ entries.*1 →
  foldl (λ m e, <[e.1 := e.2]> m) m entries !! path = m !! path.
Proof.
  revert m. induction entries as [|e entries IH]; intros m Hpath; [done |].
  simpl in *. apply not_elem_of_cons in Hpath as [Hne Hpath].
  rewrite IH by done. by rewrite lookup_insert_ne.
Qed.

Lemma foldl_insert_is_Some
    (entries : list (string * string)) (m : gmap string string) (path : string) :
  is_Some (m !! path) →
  is_Some (foldl (λ m e, <[e.1 := e.2]> m) m entries !! path).
Proof.
  revert m. induction entries as [|e entries IH]; intros m Hpath; [done |].
  simpl. apply IH. rewrite lookup_insert_is_Some. 
  destruct (decide (e.1 = path)); [by left | by right].
Qed.


(** C8, amended.  A run removes no file and leaves every file alone
    that it does not write; every write is the file of a legacy
    record whose normalized id is absent from the normalized,
    extension-stripped names of the listing made before the run, at
    the path made of [servicesDir], the id as it is, and [.yml]. *)
Theorem writes_only_for_missing_ids
    (servicesFolderPath jsonFilePath : string) (w : world) :
  let w' := (checkRemovedServices servicesFolderPath jsonFilePath w).2 in
  ∃ entries,
    written w' = written w ++ entries
    ∧ (∀ entry, entry ∈ entries →
         ∃ L listing,
           loaded w jsonFilePath = Return (VArr L)
           ∧ dirs w !! servicesFolderPath = Some listing
           ∧ restores L listing entry)
    ∧ (∀ path, is_Some (files w !! path) → is_Some (files w' !! path))
    ∧ (∀ path, path ∉ entries.*1 → files w' !! path = files w !! path).
Proof.
  intros w'. subst w'.
  destruct (checkRemovedServices_shape servicesFolderPath jsonFilePath w)
    as (lines & entries & -> & Hentries).
  exists entries. split; [done |]. split; [done |]. split.
  - intros path. apply foldl_insert_is_Some.
  - intros path. apply foldl_insert_other.
Qed.

(** A write whose path [path.parse] names after the id itself has a
    normalized base name that is absent from the listing. *)
Lemma restores_base_name
    (L : list value) (listing : list string) (entry : string * string) :
  restores L listing entry →
  ∃ id,
    entry.1 = file_of_id id
    ∧ (path_parse_name entry.1 = id →
       normalizeFileName (path_parse_name entry.1) ∉ file_keys listing).
Proof.
  intros (r & id & data & _ & _ & Hkey & _ & ->). exists id.
  split; [done |]. simpl. by intros ->.
Qed.

End Files.

(** With the library instance, the file of an ordinary id is named
    after the id. *)
Example file_named_after_id :
  let N := Sample.node (Sample.legacy []) in
  file_of_id "Example.com" = "/repo/services/Example.com.yml"
  ∧ path_parse_name (file_of_id "Example.com") = "Example.com".
Proof. split; reflexivity. Qed.


(** The path is what [path.join] makes of it: an id with a path in it
    takes the file out of [servicesDir]. *)
Example id_with_path_leaves_servicesDir :
  let N := Sample.node (Sample.legacy []) in
  file_of_id "../escape" = "/repo/escape.yml".
Proof. reflexivity. Qed.

(** The example of the specification: the record [Example.com] is
    missing, and its file is named after the id as it is. *)
Example spec_example :
  let N := Sample.node (Sample.legacy [Sample.record "Example.com"; Sample.record "other"]) in
  let w := Sample.start "/repo/services" ["other.yml"] ∅ in
  differences (sort (map normalizeFileName ["Example.com"; "other"]))
              (sort (file_keys ["other.yml"])) = ["example.com"]
  ∧ written (checkRemovedServices "/repo/services" "/repo/services.json" w).2
    = [("/repo/services/Example.com.yml",
        "id: Example.com" +:+ String "010"%char "")].
Proof. split; reflexivity. Qed.


(** C8 as stated fails on a record with the empty id next to a file
    [.yml]: [path.parse] strips no extension from a name that starts
    with its only dot, so the key of the file is [.yml] and the key of
    the record, the empty string, is missing; the run writes [.yml],
    a file that was there before the run. *)
Lemma existing_file_overwritten :
  let N := Sample.node (Sample.legacy [Sample.record ""; Sample.record "other"]) in
  let listing := ["other.yml"; ".yml"] in
  let w := Sample.start "/repo/services" listing ∅ in
  let w' := (checkRemovedServices "/repo/services" "/repo/services.json" w).2 in
  dirs w !! "/repo/services" = Some listing
  ∧ files w !! "/repo/services/.yml" = Some "old"
  ∧ written w' = [("/repo/services/.yml", "id: ''" +:+ String "010"%char "")]
  ∧ files w' !! "/repo/services/.yml" = Some ("id: ''" +:+ String "010"%char "")
  ∧ normalizeFileName (path_parse_name "/repo/services/.yml") ∈ file_keys listing.
Proof.
  intros N listing w w'. repeat split; try reflexivity.
  apply list_elem_of_In. vm_compute. auto.
Qed.

(** An id with a path in it does the same to any file of the
    directory. *)
Example sibling_overwritten :
  let N := Sample.node (Sample.legacy [Sample.record "./other"]) in
  let w := Sample.start "/repo/services" ["other.yml"] ∅ in
  let w' := (checkRemovedServices "/repo/services" "/repo/services.json" w).2 in
  files w !! "/repo/services/other.yml" = Some "old"
  ∧ files w' !! "/repo/services/other.yml"
    = Some ("id: ./other" +:+ String "010"%char "").
Proof. split; reflexivity. Qed.

(** * Further properties of the normalizer *)

Section NormalizerMore.

Lemma toLowerCase_app (a b : string) :
  Str.toLowerCase (a +:+ b) = Str.toLowerCase a +:+ Str.toLowerCase b.
Proof.
  induction a as [|c a IH]; [done |].
  change (String c a +:+ b) with (String c (a +:+ b)).
  cbn [Str.toLowerCase]. by rewrite IH.
Qed.

Lemma replace_all_app (re : ascii → bool) (a b : string) :
  Str.replace_all re (a +:+ b) = Str.replace_all re a +:+ Str.replace_all re b.
Proof.
  induction a as [|c a IH]; [done |].
  change (String c a +:+ b) with (String c (a +:+ b)).
  cbn [Str.replace_all]. rewrite IH. by destruct (re c).
Qed.

(** X1.  The normalizer works code unit by code unit: the key of a
    concatenation is the concatenation of the keys. *)
Theorem normalizeFileName_app (a b : string) :
  normalizeFileName (a +:+ b) = normalizeFileName a +:+ normalizeFileName b.
Proof.
  unfold normalizeFileName. by rewrite toLowerCase_app, replace_all_app.
Qed.

Lemma replace_all_length (re : ascii → bool) (s : string) :
  String.length (Str.replace_all re s) ≤ String.length s.
Proof.
  induction s as [|c s IH]; simpl; [done |].
  destruct (re c); simpl; lia.
Qed.

Lemma replace_all_same_length (re : ascii → bool) (s : string) :
  String.length (Str.replace_all re s) = String.length s →
  Str.replace_all re s = s.
Proof.
  induction s as [|c s IH]; simpl; [done |].
  pose proof (replace_all_length re s).
  destruct (re c); simpl; [lia |]. intros [= Hlen]. by rewrite IH.
Qed.

Lemma toLowerCase_length (s : string) :
  String.length (Str.toLowerCase s) = String.length s.
Proof. induction s as [|c s IH]; simpl; [done | by rewrite IH]. Qed.

(** X2.  The strings the normalizer leaves as they are are exactly
    the strings over [a-z0-9.]: every other string loses or changes a
    code unit. *)
Theorem normalizeFileName_fixed_iff (x : string) :
  normalizeFileName x = x ↔
  ∀ c, c ∈ Str.units x → specificCharacters c = false.
Proof.
  split.
  - intros Hx c Hc. rewrite <- Hx in Hc. by eapply normalizeFileName_units.
  - apply normalizeFileName_fixed.
Qed.

(** X3.  A key is never longer than the name it comes from, and it
    has the length of the lowercased name only when the second step
    stripped nothing: the key is then the lowercased name. *)
Theorem normalizeFileName_length (x : string) :
  String.length (normalizeFileName x) ≤ String.length x
  ∧ (String.length (normalizeFileName x) = String.length (Str.toLowerCase x) →
     normalizeFileName x = Str.toLowerCase x).
Proof.
  unfold normalizeFileName. split.
  - pose proof (replace_all_length specificCharacters (Str.toLowerCase x)) as Hle.
    by rewrite toLowerCase_length in Hle.
  - apply replace_all_same_length.
Qed.

End NormalizerMore.

(** * Further properties of the key lists and of the diff *)

Section KeysMore.

Context `{Node}.

Lemma filter_permutation {A} (p : A → bool) (l l' : list A) :
  l ≡ₚ l' → List.filter p l ≡ₚ List.filter p l'.
Proof.
  induction 1 as [|x l l' _ IH|x y l|l l' l'' _ IH1 _ IH2]; simpl.
  - done.
  - destruct (p x); [by constructor | done].
  - destruct (p x), (p y); try done. apply perm_swap.
  - by etrans.
Qed.

Lemma includes_sort (ymls : list string) (x : string) :
  includes (sort ymls) x = includes ymls x.
Proof.
  apply eq_true_iff_eq. by rewrite !includes_elem_of, elem_of_sort.
Qed.

(** X4.  Sorting the file keys has no part in the diff, and sorting
    the legacy keys only orders it: the diff of the sorted lists is the
    sorted diff of the lists as they were. *)
Theorem differences_sort (names ymls : list string) :
  differences (sort names) (sort ymls) = sort (differences names ymls).
Proof.
  apply sort_unique.
  - apply differences_sorted, sort_sorted.
  - unfold differences.
    rewrite (filter_ext _ (λ name, negb (includes ymls name)))
      by (intros x; by rewrite includes_sort).
    apply filter_permutation, sort_permutation.
Qed.

Lemma getJsonObjectNames_Throw (L : list value) (e : exn) :
  getJsonObjectNames L = Throw e →
  e = TypeError ∧ ∃ v, v ∈ L ∧ ill_formed v.
Proof.
  rewrite getJsonObjectNames_unfold.
  destruct (mapM _ L) as [vs|e1] eqn:Hvs.
  - destruct (mapM _ vs) as [ns|e2] eqn:Hns; [done |]. intros [= ->].
    apply mapM_Throw in Hns as (y & Hy & Hcall).
    split; [by eapply call_normalizeFileName_throws |].
    apply mapM_Return in Hvs.
    apply list_elem_of_lookup in Hy as [n Hn].
    destruct (Forall2_lookup_r _ _ _ n y Hvs Hn) as (x & Hx & Hget).
    exists x. split; [by eapply list_elem_of_lookup_2 |].
    intros id Hid. rewrite Hget in Hid. injection Hid as ->. done.
  - intros [= ->]. apply mapM_Throw in Hvs as (x & Hx & Hget).
    split; [by eapply get_throws |].
    exists x. split; [done |]. intros id Hid. congruence.
Qed.

(** X5.  The legacy key list has one key per record, duplicates
    included, in ascending order: it is a sorted rearrangement of the
    normalized ids. *)
Theorem getJsonObjectNames_keys (L : list value) (names : list string) :
  getJsonObjectNames L = Return names →
  length names = length L
  ∧ Sorted String.le names
  ∧ ∃ ids, Forall2 has_id L ids ∧ names ≡ₚ map normalizeFileName ids.
Proof.
  intros (ids & Hids & ->)%getJsonObjectNames_Return. split; [| split].
  - rewrite sort_permutation, length_map. symmetry. by eapply Forall2_length.
  - apply sort_sorted.
  - exists ids. split; [done | apply sort_permutation].
Qed.

Lemma has_id_permutation (L L' : list value) :
  L ≡ₚ L' →
  ∀ ids, Forall2 has_id L ids →
  ∃ ids', Forall2 has_id L' ids' ∧ ids ≡ₚ ids'.
Proof.
  induction 1 as [|x l l' _ IH|x y l|l l' l'' _ IH1 _ IH2]; intros ids Hids.
  - exists ids. by split.
  - apply Forall2_cons_inv_l in Hids as (i & ids0 & Hi & Hrest & ->).
    destruct (IH ids0 Hrest) as (ids' & ? & ?).
    exists (i :: ids'). split; [by constructor | by constructor].
  - apply Forall2_cons_inv_l in Hids as (iy & ids0 & Hy & Hrest & ->).
    apply Forall2_cons_inv_l in Hrest as (ix & ids1 & Hx & Hrest & ->).
    exists (ix :: iy :: ids1). split; [by repeat constructor | apply perm_swap].
  - destruct (IH1 ids Hids) as (ids' & Hids' & ?).
    destruct (IH2 ids' Hids') as (ids'' & ? & ?).
    exists ids''. split; [done | by etrans].
Qed.

(** X6.  The legacy key list does not depend on the order of the
    records in the legacy array: rearranged arrays give the same keys,
    or the same [TypeError]. *)
Theorem getJsonObjectNames_permutation (L L' : list value) :
  L ≡ₚ L' → getJsonObjectNames L' = getJsonObjectNames L.
Proof.
  intros Hperm. destruct (getJsonObjectNames L) as [names|e] eqn:HL.
  - apply getJsonObjectNames_Return in HL as (ids & Hids & ->).
    destruct (has_id_permutation L L' Hperm ids Hids) as (ids' & Hids' & Hp).
    rewrite (getJsonObjectNames_ids L' ids' Hids'). f_equal.
    apply sort_unique; [apply sort_sorted |].
    rewrite sort_permutation. symmetry. by apply Permutation_map.
  - apply getJsonObjectNames_Throw in HL as (-> & v & Hv & Hill).
    apply (getJsonObjectNames_ill_formed L' v); [| done]. by rewrite <- Hperm.
Qed.

(** X7.  Listing a directory changes nothing in the world and gives
    one key per entry, whatever its extension and duplicates included,
    in ascending order. *)
Theorem getYmlFileNames_keys
    (servicesFolderPath : string) (listing : list string) (w : world) :
  dirs w !! servicesFolderPath = Some listing →
  ∃ names,
    getYmlFileNames servicesFolderPath w = (Return names, w)
    ∧ length names = length listing
    ∧ Sorted String.le names
    ∧ names ≡ₚ file_keys listing.
Proof.
  intros Hdir. exists (sort (file_keys listing)).
  rewrite getYmlFileNames_run, Hdir. split; [done |]. split; [| split].
  - rewrite sort_permutation. unfold file_keys. by rewrite length_map.
  - apply sort_sorted.
  - apply sort_permutation.
Qed.

End KeysMore.

Lemma getJsonObjectNames_keys_witness :
  let L := [Sample.record "b"; Sample.record "A"; Sample.record "b"] in
  length ["a"; "b"; "b"] = length L
  ∧ Sorted String.le ["a"; "b"; "b"]
  ∧ ∃ ids, Forall2 has_id L ids ∧ ["a"; "b"; "b"] ≡ₚ map normalizeFileName ids.
Proof.
  intros L.
  refine (getJsonObjectNames_keys L ["a"; "b"; "b"] _). reflexivity.
Defined.

Lemma getJsonObjectNames_permutation_witness :
  getJsonObjectNames [Sample.record "b"; Sample.record "A"]
  = getJsonObjectNames [Sample.record "A"; Sample.record "b"].
Proof.
  refine (getJsonObjectNames_permutation
            [Sample.record "A"; Sample.record "b"]
            [Sample.record "b"; Sample.record "A"] _).
  apply perm_swap.
Defined.

Lemma getYmlFileNames_keys_witness :
  let N := Sample.node (Sample.legacy []) in
  let w := Sample.start "/repo/services" ["b.yml"; "A-B.txt"; "b.yaml"] ∅ in
  ∃ names,
    getYmlFileNames "/repo/services" w = (Return names, w)
    ∧ length names = 3
    ∧ Sorted String.le names
    ∧ names ≡ₚ file_keys ["b.yml"; "A-B.txt"; "b.yaml"].
Proof.
  intros N w.
  refine (getYmlFileNames_keys "/repo/services"
            ["b.yml"; "A-B.txt"; "b.yaml"] w _).
  reflexivity.
Defined.

(** * Further properties of the loader and of the writer *)

Section EffectsMore.

Context `{Node}.

(** X8.  [getJsonObjects] never throws and touches no file.  When
    the file can be read, its text parsed and [blocked_services] read
    from the document, it returns the value of that property and
    prints nothing; when one of the three throws, it returns [null]
    and prints one error line with the exception. *)
Theorem getJsonObjects_contained (jsonFilePath : string) (w : world) :
  ∃ v lines,
    getJsonObjects jsonFilePath w = (Return v, print lines w)
    ∧ (lines = []
         ∧ (∃ text doc,
              files w !! jsonFilePath = Some text
              ∧ JSON_parse text = Return doc
              ∧ get doc "blocked_services" = Return v)
       ∨ v = VNull
         ∧ ∃ e,
             lines = [ErrorLine "Error while reading JSON file:" e]
             ∧ (files w !! jsonFilePath = None
                ∨ (∃ text, files w !! jsonFilePath = Some text
                           ∧ JSON_parse text = Throw e)
                ∨ (∃ text doc, files w !! jsonFilePath = Some text
                               ∧ JSON_parse text = Return doc
                               ∧ get doc "blocked_services" = Throw e))).
Proof.
  rewrite getJsonObjects_run. unfold loaded.
  destruct (files w !! jsonFilePath) as [text|] eqn:Hfile.
  - destruct (JSON_parse text) as [doc|e] eqn:Hparse; simpl.
    + destruct (get doc "blocked_services") as [v|e] eqn:Hget.
      * exists v, []. rewrite print_nil. split; [done |]. left.
        split; [done |]. by exists text, doc.
      * exists VNull, [ErrorLine "Error while reading JSON file:" e].
        split; [done |]. right. split; [done |]. exists e. split; [done |].
        right. right. by exists text, doc.
    + exists VNull, [ErrorLine "Error while reading JSON file:" e].
      split; [done |]. right. split; [done |]. exists e. split; [done |].
      right. left. by exists text.
  - exists VNull, [ErrorLine "Error while reading JSON file:" (SystemError "ENOENT")].
    split; [done |]. right. split; [done |]. exists (SystemError "ENOENT").
    split; [done |]. by left.
Qed.

(** X9.  A legacy file whose text is the JSON [null] is parsed, but
    reading [blocked_services] from [null] throws inside the [try]: the
    run logs this [TypeError] as a reading error and returns without
    listing or writing anything. *)
Theorem null_document_is_logged
    (servicesFolderPath jsonFilePath text : string) (w : world) :
  files w !! jsonFilePath = Some text →
  JSON_parse text = Return VNull →
  checkRemovedServices servicesFolderPath jsonFilePath w
  = (Return (), print [ErrorLine "Error while reading JSON file:" TypeError] w).
Proof.
  intros Hfile Hparse.
  assert (loaded w jsonFilePath = Throw TypeError) as Hload.
  { unfold loaded. by rewrite Hfile, Hparse. }
  rewrite checkRemovedServices_no_array by (by rewrite Hload).
  by rewrite Hload.
Qed.

(** X10.  An empty legacy array has nothing missing, yet the
    services directory is listed all the same: the run does nothing
    when [readdir] returns, and whatever [readdir] throws leaves the
    entry point. *)
Theorem empty_legacy_array
    (servicesFolderPath jsonFilePath : string) (w : world) :
  loaded w jsonFilePath = Return (VArr []) →
  checkRemovedServices servicesFolderPath jsonFilePath w
  = (match (fs.readdir servicesFolderPath w).1 with
     | Return _ => Return ()
     | Throw e => Throw e
     end, w).
Proof.
  intros Hload. rewrite (checkRemovedServices_array _ _ []) by done.
  unfold fs.readdir. by destruct (dirs w !! servicesFolderPath).
Qed.

(** X11.  The recursion of [writeRemovedServices] is a sequence:
    writing a list of records is writing its first part and then, if
    that returned, the rest. *)
Theorem writeRemovedServices_app (a b : list value) (w : world) :
  writeRemovedServices (a ++ b) w
  = (writeRemovedServices a;; writeRemovedServices b) w.
Proof.
  revert w. induction a as [|r a IH]; intros w; [done |].
  simpl app. rewrite bind_run, !writeRemovedServices_cons.
  destruct (attempt w r) as [e|e]; [| done].
  by rewrite IH, bind_run.
Qed.

(** X12.  [writeRemovedServices] prints nothing and writes the
    files of a first part of its list, in order.  Either every round
    succeeds, the part is the whole list and the function returns; or
    the round on the record after the part fails, and the function
    throws the exception of that round without starting another. *)
Theorem writeRemovedServices_all_or_prefix (objects : list value) (w : world) :
  ∃ entries,
    (writeRemovedServices objects w).2 = put entries w
    ∧ Forall2 (λ r e, attempt w r = Return e)
              (take (length entries) objects) entries
    ∧ ((writeRemovedServices objects w).1 = Return ()
         ∧ length entries = length objects
       ∨ ∃ r e,
           objects !! length entries = Some r
           ∧ attempt w r = Throw e
           ∧ (writeRemovedServices objects w).1 = Throw e).
Proof.
  destruct (writeRemovedServices_cases objects w)
    as [(entries & Hatt & ->)
       | (done & r & rest & entries & e & -> & Hatt & Hr & ->)].
  - exists entries. pose proof (Forall2_length _ _ _ Hatt) as Hlen.
    split; [done |]. split; [by rewrite <- Hlen, firstn_all |]. by left.
  - exists entries. pose proof (Forall2_length _ _ _ Hatt) as Hlen.
    split; [done |]. split; [by rewrite <- Hlen, take_app_length |].
    right. exists r, e. split; [| done].
    by rewrite <- Hlen, list_lookup_middle.
Qed.

Lemma rewriteYMLFile_bounded (names : list string) (L : list value) (w : world) :
  ∃ lines entries,
    rewriteYMLFile names L w = (Return (), print lines (put entries w))
    ∧ length lines ≤ 1
    ∧ length entries ≤ length names.
Proof.
  rewrite rewriteYMLFile_run.
  destruct (removedServicesObjects names L) as [objects|e] eqn:Hobjs.
  - apply removedServicesObjects_length in Hobjs.
    destruct (writeRemovedServices_cases objects w)
      as [(entries & Hatt & ->)
         | (done & r & rest & entries & e & -> & Hatt & _ & ->)];
      pose proof (Forall2_length _ _ _ Hatt) as Hlen.
    + exists [], entries. rewrite print_nil. split; [done |]. simpl. lia.
    + exists [ErrorLine "Error while rewriting file:" e], entries.
      split; [done |]. rewrite length_app in Hobjs. simpl in *. lia.
  - exists [ErrorLine "Error while rewriting file:" e], [].
    rewrite put_nil. split; [done |]. simpl. lia.
Qed.

(** X13.  No exception leaves [rewriteYMLFile], whatever names and
    records it is given: it returns after at most one error line and
    at most one write per name. *)
Theorem rewriteYMLFile_contained
    (names : list string) (L : list value) (w : world) :
  ∃ lines entries,
    rewriteYMLFile names L w = (Return (), print lines (put entries w))
    ∧ length lines ≤ 1
    ∧ length entries ≤ length names.
Proof. apply rewriteYMLFile_bounded. Qed.

End EffectsMore.

Lemma null_document_is_logged_witness :
  let N := Sample.node VNull in
  let w := Sample.start "/repo/services" ["other.yml"] ∅ in
  checkRemovedServices "/repo/services" "/repo/services.json" w
  = (Return (), print [ErrorLine "Error while reading JSON file:" TypeError] w).
Proof.
  intros N w.
  refine (null_document_is_logged "/repo/services" "/repo/services.json"
            Sample.text w _ _); reflexivity.
Defined.

Lemma empty_legacy_array_witness :
  let N := Sample.node (Sample.legacy []) in
  let w := Sample.start "/repo/services" ["other.yml"] ∅ in
  checkRemovedServices "/repo/nowhere" "/repo/services.json" w
  = (Throw (SystemError "ENOENT"), w).
Proof.
  intros N w.
  refine (empty_legacy_array "/repo/nowhere" "/repo/services.json" w _).
  reflexivity.
Defined.

(** * Further properties of the run *)

Section RunMore.

Context `{Node}.

Lemma find_unmatched (L : list value) (ids : list string) (key : string) :
  Forall2 has_id L ids →
  key ∉ map normalizeFileName ids →
  find (matches key) L = Return VUndefined.
Proof.
  induction 1 as [|r id L ids Hr _ IH]; simpl; [done |].
  intros [Hne Hrest]%not_elem_of_cons. rewrite (matches_has_id key r id Hr).
  destruct (String.eqb_spec (normalizeFileName id) key); [congruence | by apply IH].
Qed.

Lemma find_returns (L : list value) (ids : list string) (key : string) :
  Forall2 has_id L ids → ∃ v, find (matches key) L = Return v.
Proof.
  intros HL. destruct (decide (key ∈ map normalizeFileName ids)) as [Hin|Hout].
  - destruct (find_first_match L ids key HL Hin) as (r & Hr & _). by exists r.
  - exists VUndefined. by eapply find_unmatched.
Qed.

(** X14.  A name that no record matches is resolved to [undefined],
    and the round on [undefined] throws before it writes: the files of
    the names before it are written, the [TypeError] is logged, and
    the names after it get no file, matched or not. *)
Theorem unmatched_key_stops_writer
    (L : list value) (ids before rest : list string) (name : string)
    (objects : list value) (entries : list (string * string)) (w : world) :
  Forall2 has_id L ids →
  name ∉ map normalizeFileName ids →
  removedServicesObjects before L = Return objects →
  Forall2 (λ r e, attempt w r = Return e) objects entries →
  rewriteYMLFile (before ++ name :: rest) L w
  = (Return (),
     print [ErrorLine "Error while rewriting file:" TypeError] (put entries w)).
Proof.
  intros HL Hname Hobjs Hatt.
  assert (∃ others, Forall2 (λ k v, find (matches k) L = Return v) rest others)
    as [others Hrest].
  { apply Forall_exists_Forall2_l, Forall_forall. intros k _.
    by eapply find_returns. }
  apply (rewriteYMLFile_fail _ L objects others VUndefined); [| done | done].
  apply mapM_Return, Forall2_app; [by apply mapM_Return in Hobjs |].
  constructor; [by eapply find_unmatched | done].
Qed.

(** X15.  [rewriteYMLFile] also catches what the callback of [find]
    throws: with a first record that has no string id, the search for
    the first name throws a [TypeError], which is logged, and nothing
    is written. *)
Theorem ill_formed_data_stops_writer
    (v : value) (L : list value) (name : string) (names : list string)
    (w : world) :
  ill_formed v →
  rewriteYMLFile (name :: names) (v :: L) w
  = (Return (), print [ErrorLine "Error while rewriting file:" TypeError] w).
Proof.
  intros Hill. rewrite rewriteYMLFile_run.
  assert (matches name v = Throw TypeError) as Hm.
  { unfold matches. destruct (get v "id") as [y|e] eqn:Hget; simpl.
    - destruct y; try done. by destruct (Hill s).
    - f_equal. by eapply get_throws. }
  unfold removedServicesObjects. rewrite mapM_cons. simpl. by rewrite Hm.
Qed.

(** X16.  An exception leaves the entry point only before anything
    was written or printed, and only for one of two reasons: it is the
    exception of [readdir], or the directory was listed and a record
    of the legacy array has no string id. *)
Theorem exception_leaves_world_untouched
    (servicesFolderPath jsonFilePath : string) (w : world) (e : exn) :
  (checkRemovedServices servicesFolderPath jsonFilePath w).1 = Throw e →
  (checkRemovedServices servicesFolderPath jsonFilePath w).2 = w
  ∧ ∃ L,
      loaded w jsonFilePath = Return (VArr L)
      ∧ ((fs.readdir servicesFolderPath w).1 = Throw e
         ∨ (∃ listing, (fs.readdir servicesFolderPath w).1 = Return listing)
           ∧ e = TypeError
           ∧ ∃ v, v ∈ L ∧ ill_formed v).
Proof.
  destruct (loaded w jsonFilePath) as [v|e'] eqn:Hload.
  2:{ rewrite checkRemovedServices_no_array by (by rewrite Hload). done. }
  destruct (isArray v) eqn:Harr.
  2:{ rewrite checkRemovedServices_no_array
        by (rewrite Hload; intros L [= ->]; done). done. }
  destruct v as [| | | | |L|]; try done. clear Harr.
  rewrite (checkRemovedServices_array _ _ L) by done. unfold fs.readdir.
  destruct (dirs w !! servicesFolderPath) as [listing|] eqn:Hdir.
  - destruct (getJsonObjectNames L) as [names|e'] eqn:Hnames.
    + cbv zeta. destruct (differences _ _) as [|k d]; [done |].
      pose proof (rewriteYMLFile_returns (k :: d) L w) as Hret.
      destruct (rewriteYMLFile (k :: d) L w) as [[[]|e'] w']; done.
    + simpl. intros [= ->].
      apply getJsonObjectNames_Throw in Hnames as (-> & v & Hv & Hill).
      split; [done |]. exists L. split; [done |]. right.
      split; [by exists listing |]. split; [done |]. by exists v.
  - simpl. intros [= <-]. split; [done |]. exists L. split; [done |]. by left.
Qed.

(** X17.  A run prints at most two lines, and only after what was on
    the console before: nothing, one reading error, one summary, or
    one rewriting error followed by the summary. *)
Theorem run_prints_at_most_two_lines
    (servicesFolderPath jsonFilePath : string) (w : world) :
  let w' := (checkRemovedServices servicesFolderPath jsonFilePath w).2 in
  ∃ lines,
    output w' = output w ++ lines
    ∧ (lines = []
       ∨ (∃ e, lines = [ErrorLine "Error while reading JSON file:" e])
       ∨ (∃ d, lines = [LogLine (summary d)])
       ∨ (∃ e d, lines = [ErrorLine "Error while rewriting file:" e;
                          LogLine (summary d)])).
Proof.
  intros w'. subst w'.
  pose (shape := λ lines : list line,
          lines = []
          ∨ (∃ e, lines = [ErrorLine "Error while reading JSON file:" e])
          ∨ (∃ d, lines = [LogLine (summary d)])
          ∨ (∃ e d, lines = [ErrorLine "Error while rewriting file:" e;
                             LogLine (summary d)])).
  assert (∀ w1 lines entries, w1 = print lines (put entries w) → shape lines →
            ∃ lines, output w1 = output w ++ lines ∧ shape lines) as Hdone.
  { intros w1 lines entries -> Hlines. by exists lines. }
  assert (∀ o : outcome (),
            ∃ lines, output (o, w).2 = output w ++ lines ∧ shape lines)
    as Hquiet.
  { intros o. apply (Hdone _ [] []); [| by left].
    by rewrite put_nil, print_nil. }
  destruct (loaded w jsonFilePath) as [v|e] eqn:Hload.
  2:{ rewrite checkRemovedServices_no_array by (by rewrite Hload).
      rewrite Hload.
      apply (Hdone _ [ErrorLine "Error while reading JSON file:" e] []);
        [by rewrite put_nil |].
      right. left. by exists e. }
  destruct (isArray v) eqn:Harr.
  2:{ rewrite checkRemovedServices_no_array
        by (rewrite Hload; intros L [= ->]; done).
      rewrite Hload. apply Hquiet. }
  destruct v as [| | | | |L|]; try done. clear Harr.
  rewrite (checkRemovedServices_array _ _ L) by done.
  destruct (dirs w !! servicesFolderPath) as [listing|]; [| apply Hquiet].
  destruct (getJsonObjectNames L) as [names|e]; [| apply Hquiet].
  cbv zeta. destruct (differences _ _) as [|k d]; [apply Hquiet |].
  rewrite rewriteYMLFile_run.
  destruct (removedServicesObjects (k :: d) L) as [objects|e].
  - destruct (writeRemovedServices_cases objects w)
      as [(entries & _ & ->) | (done & r & rest & entries & e & _ & _ & _ & ->)].
    + apply (Hdone _ [LogLine (summary (k :: d))] entries); [done |].
      right. right. left. by exists (k :: d).
    + apply (Hdone _ [ErrorLine "Error while rewriting file:" e;
                      LogLine (summary (k :: d))] entries).
      * by rewrite print_print.
      * right. right. right. by exists e, (k :: d).
  - apply (Hdone _ [ErrorLine "Error while rewriting file:" e;
                    LogLine (summary (k :: d))] []).
    + by rewrite put_nil, print_print.
    + right. right. right. by exists e, (k :: d).
Qed.

Lemma has_id_functional (r : value) (id id' : string) :
  has_id r id → has_id r id' → id = id'.
Proof. unfold has_id. congruence. Qed.

(** X18.  Writing the missing files restores what the run checks:
    when the listing gains, for every record the missing keys were
    resolved to, an entry named after its id with the extension, and
    [path.parse] names that entry after the id, the diff against the
    new listing is empty. *)
Theorem second_run_finds_nothing
    (L : list value) (ids listing : list string)
    (objects : list value) (new_ids : list string) :
  Forall2 has_id L ids →
  let names := sort (map normalizeFileName ids) in
  removedServicesObjects (differences names (sort (file_keys listing))) L
  = Return objects →
  Forall2 has_id objects new_ids →
  (∀ id, id ∈ new_ids → path_parse_name (id +:+ YML_FILE_EXTENSION) = id) →
  differences names
    (sort (file_keys (listing ++ map (λ id, id +:+ YML_FILE_EXTENSION) new_ids)))
  = [].
Proof.
  intros HL names Hobjs Hnew Hparse. subst names.
  set (d := differences _ (sort (file_keys listing))) in *.
  apply differences_nil. intros key Hkey. rewrite elem_of_sort.
  unfold file_keys. rewrite map_app, elem_of_app.
  destruct (decide (key ∈ file_keys listing)) as [Hold|Hmiss]; [by left | right].
  assert (key ∈ d) as Hd.
  { apply elem_of_differences. split; [done | by rewrite elem_of_sort]. }
  destruct (removedServicesObjects_first_match L ids d HL)
    as (objects' & Hobjs' & Hres).
  { intros k [Hk _]%elem_of_differences. by rewrite elem_of_sort in Hk. }
  rewrite Hobjs in Hobjs'. injection Hobjs' as <-.
  apply list_elem_of_lookup in Hd as [n Hn].
  destruct (Forall2_lookup_l _ _ _ n key Hres Hn)
    as (r & Hr & _ & _ & id & _ & Hid & Hnorm & _).
  destruct (Forall2_lookup_l _ _ _ n r Hnew Hr) as (id' & Hid' & Hhas).
  assert (id' = id) as -> by (by eapply has_id_functional).
  apply elem_of_map. exists (id +:+ YML_FILE_EXTENSION). split.
  - rewrite Hparse; [done | by eapply list_elem_of_lookup_2].
  - apply elem_of_map. exists id. split; [done | by eapply list_elem_of_lookup_2].
Qed.

End RunMore.

Lemma unmatched_key_stops_writer_witness :
  let N := Sample.node (Sample.legacy [Sample.record "a"]) in
  let w := Sample.start "/repo/services" [] ∅ in
  rewriteYMLFile (["a"] ++ "zz" :: ["a"]) [Sample.record "a"] w
  = (Return (),
     print [ErrorLine "Error while rewriting file:" TypeError]
           (put [("/repo/services/a.yml", "id: a" +:+ String "010"%char "")] w)).
Proof.
  intros N w.
  refine (unmatched_key_stops_writer [Sample.record "a"] ["a"] ["a"] ["a"] "zz"
            [Sample.record "a"]
            [("/repo/services/a.yml", "id: a" +:+ String "010"%char "")] w
            _ _ _ _).
  - repeat constructor.
  - rewrite list_elem_of_In. vm_compute. intros [[=] | []].
  - reflexivity.
  - repeat constructor.
Defined.

Lemma ill_formed_data_stops_writer_witness :
  let N := Sample.node (Sample.legacy []) in
  let w := Sample.start "/repo/services" [] ∅ in
  rewriteYMLFile ["a"] [VObj [("name", VStr "x")]; Sample.record "a"] w
  = (Return (), print [ErrorLine "Error while rewriting file:" TypeError] w).
Proof.
  intros N w.
  refine (ill_formed_data_stops_writer (VObj [("name", VStr "x")])
            [Sample.record "a"] "a" [] w _).
  intros id. discriminate.
Defined.

Lemma exception_leaves_world_untouched_witness :
  let N := Sample.node (Sample.legacy [Sample.record "Example.com"]) in
  let w := Sample.start "/repo/services" ["other.yml"] ∅ in
  let e := SystemError "ENOENT" in
  (checkRemovedServices "/repo/nowhere" "/repo/services.json" w).2 = w
  ∧ ∃ L,
      loaded w "/repo/services.json" = Return (VArr L)
      ∧ ((fs.readdir "/repo/nowhere" w).1 = Throw e
         ∨ (∃ listing, (fs.readdir "/repo/nowhere" w).1 = Return listing)
           ∧ e = TypeError
           ∧ ∃ v, v ∈ L ∧ ill_formed v).
Proof.
  intros N w e.
  refine (exception_leaves_world_untouched
            "/repo/nowhere" "/repo/services.json" w e _).
  reflexivity.
Defined.

Lemma second_run_finds_nothing_witness :
  let N := Sample.node (Sample.legacy [Sample.record "Example.com"; Sample.record "other"]) in
  differences (sort (map normalizeFileName ["Example.com"; "other"]))
    (sort (file_keys (["other.yml"]
                      ++ map (λ id, id +:+ YML_FILE_EXTENSION) ["Example.com"])))
  = [].
Proof.
  intros N.
  refine (second_run_finds_nothing
            [Sample.record "Example.com"; Sample.record "other"]
            ["Example.com"; "other"] ["other.yml"]
            [Sample.record "Example.com"] ["Example.com"] _ _ _ _).
  - repeat constructor.
  - reflexivity.
  - repeat constructor.
  - intros id Hid.
    repeat (apply elem_of_cons in Hid as [-> | Hid]);
      [reflexivity | by apply elem_of_nil in Hid].
Defined.

Section ListingOrder.

Context `{Node}.

(** X19.  The keys of a directory do not depend on the order in which
    [readdir] reports its entries: two worlds whose listings of the
    directory are rearrangements of each other give the same key
    list. *)
Theorem getYmlFileNames_permutation
    (servicesFolderPath : string) (listing listing' : list string)
    (w w2 : world) :
  dirs w !! servicesFolderPath = Some listing →
  dirs w2 !! servicesFolderPath = Some listing' →
  listing ≡ₚ listing' →
  (getYmlFileNames servicesFolderPath w2).1
  = (getYmlFileNames servicesFolderPath w).1.
Proof.
  intros Hdir Hdir' Hperm. rewrite !getYmlFileNames_run, Hdir, Hdir'. simpl.
  f_equal. apply sort_unique; [apply sort_sorted |].
  rewrite sort_permutation. unfold file_keys. symmetry.
  by apply Permutation_map.
Qed.

End ListingOrder.

Lemma getYmlFileNames_permutation_witness :
  let N := Sample.node (Sample.legacy []) in
  (getYmlFileNames "/repo/services"
     (Sample.start "/repo/services" ["b.yml"; "a.yml"] ∅)).1
  = (getYmlFileNames "/repo/services"
       (Sample.start "/repo/services" ["a.yml"; "b.yml"] ∅)).1.
Proof.
  intros N.
  refine (getYmlFileNames_permutation "/repo/services"
            ["a.yml"; "b.yml"] ["b.yml"; "a.yml"]
            (Sample.start "/repo/services" ["a.yml"; "b.yml"] ∅)
            (Sample.start "/repo/services" ["b.yml"; "a.yml"] ∅) _ _ _).
  - reflexivity.
  - reflexivity.
  - apply perm_swap.
Defined.
